(** * wtickle: a concurrent HTTP load generator

    A shallow embedding of [wtickle.go].  The three goroutine bodies
    ([worker], [reader], [writer]) and the supervisor ([main]) are
    translated statement by statement; the goroutines are then composed
    into an interleaving transition system over two unbuffered channels
    and a wait group. *)

From Stdlib Require Import ZArith Lia Ascii.
From stdpp Require Import base tactics option list strings.

Open Scope Z_scope.

(** ** Text helpers *)

(** The newline character, written ["\n"] in the Go source. *)
Definition nl : string := String (Ascii.ascii_of_nat 10) "".

(** The double quote character, which Go's [net/url] puts around the
    offending text in its error messages. *)
Definition dq : string := String (Ascii.ascii_of_nat 34) "".

(** [strings.Join(elems, sep)]. *)
Fixpoint Join (elems : list string) (sep : string) : string :=
  match elems with
  | [] => ""
  | [x] => x
  | x :: rest => x +:+ sep +:+ Join rest sep
  end.

(** First cut of a text at a space: what precedes and what follows it. *)
Fixpoint cut_space (s : string) : option (string * string) :=
  match s with
  | EmptyString => None
  | String c rest =>
      if Ascii.eqb c " "%char then Some ("", rest)
      else match cut_space rest with
           | Some (a, b) => Some (String c a, b)
           | None => None
           end
  end.

(** [strings.SplitN(s, " ", 2)]: at most two parts, cut at the first space. *)
Definition SplitN_space_2 (s : string) : list string :=
  match cut_space s with
  | Some (a, b) => [a; b]
  | None => [s]
  end.

(** ** Data of the program *)

(** A Go [error], kept by its text (what [%s] prints). *)
Definition error := string.

(** The parts of [*http.Response] the program reads.  [Header] lists the
    keys in the order the [range] statement of [reader] visits them;
    [RequestURL] is [resp.Request.URL.String()]; [Body] is the handle of
    the body resource. *)
Record Response := {
  Status : string;
  StatusCode : Z;
  Header : list (string * list string);
  RequestURL : string;
  Body : nat
}.

(** [type responseWithError struct { resp *http.Response; err error }];
    [None] is Go's [nil]. *)
Record responseWithError := {
  resp : option Response;
  err : option error
}.

(** The parts of [*http.Request] the program sets. *)
Record Request := {
  Method : string;
  URL : string;
  ReqHeader : list (string * string)
}.

(** The log file behind [*os.File]: what was written so far, and whether
    [Close] was called. *)
Record LogFile := {
  written : string;
  file_closed : bool
}.

(** What the goroutines act on outside the channels: the standard output,
    the log (absent when the [-log] flag is empty) and the response bodies
    closed so far. *)
Record World := {
  stdout : string;
  logger : option LogFile;
  closed_bodies : list nat
}.

(** Run-time panics of the Go runtime that the program can provoke. *)
Inductive Panic :=
| NilDereference
| SliceOutOfRange
| SendOnClosedChannel
| NegativeWaitGroup.

(** ** A state-and-panic monad for straight-line goroutine code *)

Inductive Res (A : Type) :=
| Ok (a : A) (w : World)
| Fault (p : Panic) (w : World).
Arguments Ok {A} a w.
Arguments Fault {A} p w.

Definition M (A : Type) := World -> Res A.

#[global] Instance M_ret : MRet M := fun A a w => Ok a w.

#[global] Instance M_bind : MBind M := fun A B k m w =>
  match m w with
  | Ok a w' => k a w'
  | Fault p w' => Fault p w'
  end.

(** Following a pointer: [nil] panics. *)
Definition deref {A} (p : option A) : M A :=
  fun w => match p with
           | Some a => Ok a w
           | None => Fault NilDereference w
           end.

(** [s[0:1]]: panics on the empty string. *)
Definition slice_0_1 (s : string) : M string :=
  fun w => match s with
           | EmptyString => Fault SliceOutOfRange w
           | String c _ => Ok (String c "") w
           end.

(** [fmt.Print(s)] and [fmt.Printf] of an already formatted text. *)
Definition Print (s : string) : M unit :=
  fun w => Ok tt {| stdout := stdout w +:+ s;
                    logger := logger w;
                    closed_bodies := closed_bodies w |}.

(** [body.Close()]. *)
Definition Close_body (b : nat) : M unit :=
  fun w => Ok tt {| stdout := stdout w;
                    logger := logger w;
                    closed_bodies := closed_bodies w ++ [b] |}.

(** [f.WriteString(s)]; on a closed file the call returns an error, which
    the program ignores, and nothing is written. *)
Definition WriteString (f : LogFile) (s : string) : LogFile :=
  if file_closed f then f
  else {| written := written f +:+ s; file_closed := false |}.

(** [if log != nil { ...; log.WriteString(text) }] *)
Definition log_if_configured (text : string) : M unit :=
  fun w => Ok tt {| stdout := stdout w;
                    logger := (fun f => WriteString f text) <$> logger w;
                    closed_bodies := closed_bodies w |}.

(** [fmt.Sprintf("%s: %s", k, v)] for a header key and its values: Go
    prints a slice of strings between brackets, separated by spaces. *)
Definition header_line (kv : string * list string) : string :=
  fst kv +:+ ": " +:+ "[" +:+ Join (snd kv) " " +:+ "]".

Section Reader.

(** [fmt.Sprintf("%s", resp)] for a response pointer: the formatting of the
    whole structure is the library's. *)
Variable fmt_response : Response -> string.

(** One iteration of [for re := range result] in [reader]
    (lines 56 to 78). *)
Definition reader_body (re : responseWithError) : M unit :=
  r0 ← deref (resp re);
  let tolog := [RequestURL r0] in
  '(output, tolog) ←
    match err re return M (string * list string) with
    | Some e =>
        mret ("e", tolog ++ ["Error " +:+ e])
    | None =>
        r1 ← deref (resp re);
        if StatusCode r1 =? 200 then
          mret (".", (tolog ++ [Status r1]) ++ (header_line <$> Header r1))
        else
          r2 ← deref (resp re);
          o ← slice_0_1 (Status r2);
          mret (o, tolog ++ [fmt_response r2])
    end;
  r3 ← deref (resp re);
  Close_body (Body r3);;
  Print output;;
  log_if_configured (Join (tolog ++ [""; ""]) nl).

(** The symbol and the lines of the record that [reader_body] computes for
    an outcome whose response is [r] (the [switch] of lines 59 to 72,
    without its panics). *)
Definition reader_symbol (re : responseWithError) (r : Response) : string :=
  match err re with
  | Some _ => "e"
  | None =>
      if StatusCode r =? 200 then "."
      else match Status r with
           | String c _ => String c ""
           | EmptyString => ""
           end
  end.

Definition reader_lines (re : responseWithError) (r : Response)
  : list string :=
  match err re with
  | Some e => [RequestURL r; "Error " +:+ e]
  | None =>
      if StatusCode r =? 200
      then [RequestURL r; Status r] ++ (header_line <$> Header r)
      else [RequestURL r; fmt_response r]
  end.

End Reader.

(** ** The worker *)

Section Worker.

(** Which URL texts [http.NewRequest] rejects, and with which error; the
    parsing itself is the library's ([net/url]). *)
Variable parse_error : string -> option error.

(** [textproto.CanonicalMIMEHeaderKey], applied by [Header.Add]. *)
Variable canonical_key : string -> string.

(** [http.NewRequest(method, url, nil)]. *)
Definition NewRequest (method url : string) : Request + error :=
  match parse_error url with
  | Some e => inr e
  | None => inl {| Method := method; URL := url; ReqHeader := [] |}
  end.

(** [request.Header.Add(key, value)]. *)
Definition Header_Add (r : Request) (key value : string) : Request :=
  {| Method := Method r;
     URL := URL r;
     ReqHeader := ReqHeader r ++ [(canonical_key key, value)] |}.

(** How one iteration of the worker's loop ends: by [break], or with the
    request handed to [client.Do] and its result to be sent. *)
Inductive Iteration :=
| Break
| Sends (request : Request) (re : responseWithError).

(** One iteration of [for url := range work] in [worker] (lines 30 to 38);
    [reply] is the pair that [client.Do(request)] returns. *)
Definition worker_body (hdr val url : string)
  (reply : option Response * option error) : M Iteration :=
  match NewRequest "GET" url with
  | inr e =>
      Print ("Error creating request: " +:+ e);;
      mret Break
  | inl request =>
      let request :=
        if bool_decide (hdr ≠ "") then Header_Add request hdr val
        else request in
      mret (Sends request {| resp := fst reply; err := snd reply |})
  end.

End Worker.

(** ** The supervisor's set-up (lines 106 to 146 of [main]) *)

(** The command line flags. *)
Record Flags := {
  flag_par : Z;
  flag_header : string;
  flag_duration : Z;
  flag_log : string
}.

(** What the set-up hands to the goroutines. *)
Record Config := {
  par : Z;
  hdr : string;
  val : string;
  duration : Z;
  urls : list string
}.

(** The set-up either returns from [main] after a diagnostic, or goes on
    to start the goroutines. *)
Inductive Setup :=
| Fatal (out : string) (log : option LogFile)
| Ready (c : Config) (log : option LogFile).

Section Main.

(** [os.Create(path)]: [Some e] when the file cannot be created. *)
Variable os_Create : string -> option error.

(** The header flag (lines 112 to 121): [inl] is the diagnostic. *)
Definition parse_header (header : string) : string + string * string :=
  if bool_decide (header ≠ "") then
    match SplitN_space_2 header with
    | [name; value] => inr (name, value)
    | _ => inl ("Error: bad header " +:+ header +:+ nl)
    end
  else inr ("", "").

(** The log flag (lines 123 to 131). *)
Definition open_log (log : string) : string + option LogFile :=
  if bool_decide (log ≠ "") then
    match os_Create log with
    | Some e => inl ("Error creating log file " +:+ log +:+ ": " +:+ e +:+ nl)
    | None => inr (Some {| written := ""; file_closed := false |})
    end
  else inr None.

(** The scanner loop (lines 133 to 141) over the lines of the input. *)
Definition read_urls (stdin : list string) : list string :=
  filter (λ url, url ≠ "") stdin.

Definition main_setup (f : Flags) (stdin : list string) : Setup :=
  match parse_header (flag_header f) with
  | inl msg => Fatal msg None
  | inr (h, v) =>
      match open_log (flag_log f) with
      | inl msg => Fatal msg None
      | inr lg =>
          let us := read_urls stdin in
          if bool_decide (length us = 0%nat) then
            Fatal "Error: no URLs found" lg
          else
            Ready {| par := flag_par f; hdr := h; val := v;
                     duration := flag_duration f; urls := us |} lg
      end
  end.

(** The fatal conditions of the set-up, as the flags and the input show
    them: a header that is not empty and does not split in two, a log
    path that is not empty and cannot be created, no line left after the
    empty ones are dropped. *)
Definition header_rejected (f : Flags) : Prop :=
  flag_header f ≠ "" ∧ length (SplitN_space_2 (flag_header f)) ≠ 2%nat.

Definition log_unwritable (f : Flags) (e : error) : Prop :=
  flag_log f ≠ "" ∧ os_Create (flag_log f) = Some e.

Definition no_urls (stdin : list string) : Prop := read_urls stdin = [].

End Main.

(** ** The goroutines as a transition system *)

(** Where a worker stands: blocked on [range work], holding a URL it has
    received, blocked on [result <- ...], past its loop and about to call
    [wg.Done()], or finished. *)
Inductive WorkerState :=
| Receiving
| Holding (url : string)
| Sending (re : responseWithError)
| Leaving
| Exited.

(** The writer is inside its [for { select ... }] or has returned. *)
Inductive WriterState :=
| WriterNotStarted
| Selecting
| WriterReturned.

(** The reader is blocked on [range result], holds an outcome, or has
    returned. *)
Inductive ReaderState :=
| ReaderNotStarted
| Draining
| Processing (re : responseWithError)
| ReaderReturned.

(** [main] after it has started the goroutines (lines 160 to 166). *)
Inductive MainState :=
| AtWait
| AtCloseResult
| AtCloseLogger
| AtPrintNewline
| Returned.

#[global] Instance MainState_eq_dec : EqDecision MainState.
Proof. solve_decision. Defined.

(** The whole process.  [pushed] and [requests] record, in order, the URLs
    the writer has handed over on the work channel and the requests the
    workers have passed to [client.Do]; [panic] is set when a goroutine
    panics, which ends the process. *)
Record State := {
  workers : list WorkerState;
  wg : Z;
  writer_st : WriterState;
  timer_fired : bool;
  work_closed : bool;
  reader_st : ReaderState;
  result_closed : bool;
  main_st : MainState;
  world : World;
  pushed : list string;
  requests : list Request;
  panic : option Panic
}.

Definition set_workers (ws : list WorkerState) (s : State) : State :=
  {| workers := ws; wg := wg s; writer_st := writer_st s;
     timer_fired := timer_fired s; work_closed := work_closed s;
     reader_st := reader_st s; result_closed := result_closed s;
     main_st := main_st s; world := world s; pushed := pushed s;
     requests := requests s; panic := panic s |}.

Definition set_wg (n : Z) (s : State) : State :=
  {| workers := workers s; wg := n; writer_st := writer_st s;
     timer_fired := timer_fired s; work_closed := work_closed s;
     reader_st := reader_st s; result_closed := result_closed s;
     main_st := main_st s; world := world s; pushed := pushed s;
     requests := requests s; panic := panic s |}.

Definition set_writer (g : WriterState) (s : State) : State :=
  {| workers := workers s; wg := wg s; writer_st := g;
     timer_fired := timer_fired s; work_closed := work_closed s;
     reader_st := reader_st s; result_closed := result_closed s;
     main_st := main_st s; world := world s; pushed := pushed s;
     requests := requests s; panic := panic s |}.

Definition set_timer_fired (b : bool) (s : State) : State :=
  {| workers := workers s; wg := wg s; writer_st := writer_st s;
     timer_fired := b; work_closed := work_closed s;
     reader_st := reader_st s; result_closed := result_closed s;
     main_st := main_st s; world := world s; pushed := pushed s;
     requests := requests s; panic := panic s |}.

Definition set_work_closed (b : bool) (s : State) : State :=
  {| workers := workers s; wg := wg s; writer_st := writer_st s;
     timer_fired := timer_fired s; work_closed := b;
     reader_st := reader_st s; result_closed := result_closed s;
     main_st := main_st s; world := world s; pushed := pushed s;
     requests := requests s; panic := panic s |}.

Definition set_reader (r : ReaderState) (s : State) : State :=
  {| workers := workers s; wg := wg s; writer_st := writer_st s;
     timer_fired := timer_fired s; work_closed := work_closed s;
     reader_st := r; result_closed := result_closed s;
     main_st := main_st s; world := world s; pushed := pushed s;
     requests := requests s; panic := panic s |}.

Definition set_result_closed (b : bool) (s : State) : State :=
  {| workers := workers s; wg := wg s; writer_st := writer_st s;
     timer_fired := timer_fired s; work_closed := work_closed s;
     reader_st := reader_st s; result_closed := b;
     main_st := main_st s; world := world s; pushed := pushed s;
     requests := requests s; panic := panic s |}.

Definition set_main (m : MainState) (s : State) : State :=
  {| workers := workers s; wg := wg s; writer_st := writer_st s;
     timer_fired := timer_fired s; work_closed := work_closed s;
     reader_st := reader_st s; result_closed := result_closed s;
     main_st := m; world := world s; pushed := pushed s;
     requests := requests s; panic := panic s |}.

Definition set_world (w : World) (s : State) : State :=
  {| workers := workers s; wg := wg s; writer_st := writer_st s;
     timer_fired := timer_fired s; work_closed := work_closed s;
     reader_st := reader_st s; result_closed := result_closed s;
     main_st := main_st s; world := w; pushed := pushed s;
     requests := requests s; panic := panic s |}.

Definition add_pushed (u : string) (s : State) : State :=
  {| workers := workers s; wg := wg s; writer_st := writer_st s;
     timer_fired := timer_fired s; work_closed := work_closed s;
     reader_st := reader_st s; result_closed := result_closed s;
     main_st := main_st s; world := world s; pushed := pushed s ++ [u];
     requests := requests s; panic := panic s |}.

Definition add_request (r : Request) (s : State) : State :=
  {| workers := workers s; wg := wg s; writer_st := writer_st s;
     timer_fired := timer_fired s; work_closed := work_closed s;
     reader_st := reader_st s; result_closed := result_closed s;
     main_st := main_st s; world := world s; pushed := pushed s;
     requests := requests s ++ [r]; panic := panic s |}.

Definition set_panic (p : Panic) (s : State) : State :=
  {| workers := workers s; wg := wg s; writer_st := writer_st s;
     timer_fired := timer_fired s; work_closed := work_closed s;
     reader_st := reader_st s; result_closed := result_closed s;
     main_st := main_st s; world := world s; pushed := pushed s;
     requests := requests s; panic := Some p |}.

(** [logger.Close()]. *)
Definition Close_file (f : LogFile) : LogFile :=
  {| written := written f; file_closed := true |}.

(** [if logger != nil { logger.Close() }] (lines 162 to 164). *)
Definition close_logger (w : World) : World :=
  {| stdout := stdout w;
     logger := Close_file <$> logger w;
     closed_bodies := closed_bodies w |}.

(** What the scheduler, the timer, the random source and the network
    decide: which goroutine moves next, and with which outside value. *)
Inductive Label :=
| TimerFires
| WriterCloses
| WriterSends (i k : nat)
| WorkerSeesClosed (i : nat)
| WorkerRequests (i : nat) (reply : option Response * option error)
| WorkerSends (i : nat)
| WorkerDone (i : nat)
| ReaderProcesses
| ReaderSeesClosed
| MainWaitReturns
| MainClosesResult
| MainClosesLogger
| MainPrintsNewline.

Section System.

Variable fmt_response : Response -> string.
Variable parse_error : string -> option error.
Variable canonical_key : string -> string.

(** The process runs until [main] returns or a goroutine panics. *)
Definition alive (s : State) : bool :=
  match panic s, main_st s with
  | Some _, _ => false
  | None, Returned => false
  | None, _ => true
  end.

(** [writer]'s [select] (lines 95 to 101).  The timer channel is [nil]
    unless [duration > 0], and then holds a value once the timer has
    fired; the send needs a worker blocked on [range work], and its value
    is [urls[k]] for the [k] that [rand.Intn(len(urls))] returns. *)
Definition writer_select (c : Config) (l : Label) (s : State)
  : option State :=
  match l, writer_st s with
  | WriterCloses, Selecting =>
      if timer_fired s then
        Some (set_writer WriterReturned (set_work_closed true s))
      else None
  | WriterSends i k, Selecting =>
      match workers s !! i, urls c !! k with
      | Some Receiving, Some u =>
          Some (set_workers (<[i := Holding u]> (workers s)) (add_pushed u s))
      | _, _ => None
      end
  | _, _ => None
  end.

(** A step of worker [i] other than the receipt of a URL (which is the
    writer's [WriterSends]).  The statements from [http.NewRequest] to
    [client.Do] wait for no other goroutine and are taken as one step; a
    send on [result] panics when the channel is closed and otherwise
    needs the reader blocked on its receive; [wg.Done()] panics when the
    counter would become negative. *)
Definition worker_step (c : Config) (l : Label) (s : State)
  : option State :=
  match l with
  | WorkerSeesClosed i =>
      match workers s !! i with
      | Some Receiving =>
          if work_closed s then
            Some (set_workers (<[i := Leaving]> (workers s)) s)
          else None
      | _ => None
      end
  | WorkerRequests i reply =>
      match workers s !! i with
      | Some (Holding u) =>
          match worker_body parse_error canonical_key
                  (hdr c) (val c) u reply (world s) with
          | Ok Break w =>
              Some (set_world w (set_workers (<[i := Leaving]> (workers s)) s))
          | Ok (Sends request re) w =>
              Some (set_world w (add_request request
                      (set_workers (<[i := Sending re]> (workers s)) s)))
          | Fault p w => Some (set_panic p (set_world w s))
          end
      | _ => None
      end
  | WorkerSends i =>
      match workers s !! i with
      | Some (Sending re) =>
          if result_closed s then Some (set_panic SendOnClosedChannel s)
          else match reader_st s with
               | Draining =>
                   Some (set_reader (Processing re)
                           (set_workers (<[i := Receiving]> (workers s)) s))
               | _ => None
               end
      | _ => None
      end
  | WorkerDone i =>
      match workers s !! i with
      | Some Leaving =>
          if wg s =? 0 then Some (set_panic NegativeWaitGroup s)
          else Some (set_wg (wg s - 1)
                       (set_workers (<[i := Exited]> (workers s)) s))
      | _ => None
      end
  | _ => None
  end.

(** A step of the reader other than the receipt of an outcome (which is a
    worker's [WorkerSends]).  The loop body waits for no other goroutine,
    so it is taken as one step. *)
Definition reader_step (l : Label) (s : State) : option State :=
  match l, reader_st s with
  | ReaderProcesses, Processing re =>
      match reader_body fmt_response re (world s) with
      | Ok _ w => Some (set_world w (set_reader Draining s))
      | Fault p w => Some (set_panic p (set_world w s))
      end
  | ReaderSeesClosed, Draining =>
      if result_closed s then Some (set_reader ReaderReturned s) else None
  | _, _ => None
  end.

(** [main] from [wg.Wait()] on (lines 160 to 166).  The return of [main]
    is taken in the same step as its last [Printf]; what the other
    goroutines may still do between that [Printf] and the end of the
    process is not part of the runs. *)
Definition main_step (l : Label) (s : State) : option State :=
  match l, main_st s with
  | MainWaitReturns, AtWait =>
      if wg s =? 0 then Some (set_main AtCloseResult s) else None
  | MainClosesResult, AtCloseResult =>
      Some (set_main AtCloseLogger (set_result_closed true s))
  | MainClosesLogger, AtCloseLogger =>
      Some (set_main AtPrintNewline (set_world (close_logger (world s)) s))
  | MainPrintsNewline, AtPrintNewline =>
      match Print nl (world s) with
      | Ok _ w => Some (set_main Returned (set_world w s))
      | Fault p w => Some (set_panic p (set_world w s))
      end
  | _, _ => None
  end.

(** One step of the process. *)
Definition step (c : Config) (l : Label) (s : State) : option State :=
  if alive s then
    match l with
    | TimerFires =>
        if bool_decide (0 < duration c) && negb (timer_fired s)
        then Some (set_timer_fired true s) else None
    | WriterCloses | WriterSends _ _ => writer_select c l s
    | WorkerSeesClosed _ | WorkerRequests _ _ | WorkerSends _
    | WorkerDone _ => worker_step c l s
    | ReaderProcesses | ReaderSeesClosed => reader_step l s
    | MainWaitReturns | MainClosesResult | MainClosesLogger
    | MainPrintsNewline => main_step l s
    end
  else None.

(** A schedule, run from a state. *)
Fixpoint exec (c : Config) (ls : list Label) (s : State) : option State :=
  match ls with
  | [] => Some s
  | l :: rest =>
      match step c l s with
      | Some s' => exec c rest s'
      | None => None
      end
  end.

(** The state [main] leaves once it has started the workers (lines 148 to
    158): [par] workers, the wait group at [par], the writer and the
    reader. *)
Definition init (c : Config) (log : option LogFile) : State :=
  {| workers := replicate (Z.to_nat (par c)) Receiving;
     wg := Z.of_nat (Z.to_nat (par c));
     writer_st := Selecting;
     timer_fired := false;
     work_closed := false;
     reader_st := Draining;
     result_closed := false;
     main_st := AtWait;
     world := {| stdout := ""; logger := log; closed_bodies := [] |};
     pushed := [];
     requests := [];
     panic := None |}.

(** The state after a fatal diagnostic: [main] has returned and no
    goroutine was started. *)
Definition halted (out : string) (log : option LogFile) : State :=
  {| workers := [];
     wg := 0;
     writer_st := WriterNotStarted;
     timer_fired := false;
     work_closed := false;
     reader_st := ReaderNotStarted;
     result_closed := false;
     main_st := Returned;
     world := {| stdout := out; logger := log; closed_bodies := [] |};
     pushed := [];
     requests := [];
     panic := None |}.

Definition start (su : Setup) : State :=
  match su with
  | Fatal out log => halted out log
  | Ready c log => init c log
  end.

(** The states of the runs of a configuration. *)
Inductive reachable (c : Config) (log : option LogFile) : State -> Prop :=
| reachable_init : reachable c log (init c log)
| reachable_step s l s' :
    reachable c log s -> step c l s = Some s' -> reachable c log s'.

End System.

(** ** Counting workers *)

(** A worker that has not finished still owes the wait group a [Done]. *)
Definition owes_done (w : WorkerState) : nat :=
  match w with
  | Exited => 0
  | _ => 1
  end.


(** How many steps a worker can still take once no more work is handed
    out: request, send, the receive that finds the channel closed, and
    [wg.Done()]. *)
Definition worker_fuel (w : WorkerState) : nat :=
  match w with
  | Holding _ => 5
  | Sending _ => 4
  | Receiving => 2
  | Leaving => 1
  | Exited => 0
  end.

Definition reader_fuel (r : ReaderState) : nat :=
  match r with
  | Processing _ => 2
  | Draining => 1
  | ReaderReturned | ReaderNotStarted => 0
  end.

Definition main_fuel (m : MainState) : nat :=
  match m with
  | AtWait => 4
  | AtCloseResult => 3
  | AtCloseLogger => 2
  | AtPrintNewline => 1
  | Returned => 0
  end.

Definition writer_fuel (s : State) : nat :=
  (match writer_st s with Selecting => 1 | _ => 0 end
   + if timer_fired s then 0 else 1)%nat.

Definition fuel_sum (s : State) : nat :=
  (sum_list_with worker_fuel (workers s) + reader_fuel (reader_st s)
   + main_fuel (main_st s) + writer_fuel s)%nat.

(** A bound on the steps left when the writer hands out no more work. *)
Definition fuel (s : State) : nat :=
  if alive s then fuel_sum s else 0%nat.

(** The hand-overs of work in a schedule. *)
Definition is_send (l : Label) : nat :=
  match l with
  | WriterSends _ _ => 1
  | _ => 0
  end.

(** The header every request of a configuration carries. *)
Definition expected_header (canonical_key : string -> string) (c : Config)
  : list (string * string) :=
  if bool_decide (hdr c ≠ "") then [(canonical_key (hdr c), val c)] else [].

(** ** Outcomes on their way *)

(** An outcome a worker holds for the reader, and one the reader holds. *)
Definition in_flight (w : WorkerState) : nat :=
  match w with
  | Sending _ => 1
  | _ => 0
  end.

Definition at_reader (r : ReaderState) : nat :=
  match r with
  | Processing _ => 1
  | _ => 0
  end.

(** An outcome that carries a response with a status text. *)
Definition answered (re : responseWithError) : Prop :=
  ∃ r, resp re = Some r ∧ Status r ≠ "".

(** A step in which [client.Do], if it is called, returns such a
    response. *)
Definition responsive (l : Label) : Prop :=
  match l with
  | WorkerRequests _ reply =>
      answered {| resp := fst reply; err := snd reply |}
  | _ => True
  end.

(** Every outcome on its way in a state is an answered one, and nothing
    has panicked. *)
Definition all_answered (s : State) : Prop :=
  panic s = None
  ∧ (∀ i re, workers s !! i = Some (Sending re) -> answered re)
  ∧ (∀ re, reader_st s = Processing re -> answered re).

(** A worker that holds a URL for which it has yet to make the request. *)
Definition holding (w : WorkerState) : nat :=
  match w with
  | Holding _ => 1
  | _ => 0
  end.

(** [main] is past [logger.Close()]. *)
Definition past_close_logger (m : MainState) : Prop :=
  m = AtPrintNewline ∨ m = Returned.

(** The text [lines] make in the log: each line and a newline, then one
    more newline. *)
Definition record_of (lines : list string) : string :=
  foldr (λ x acc, x +:+ nl +:+ acc) nl lines.

(** [main]'s last four statements, in order. *)
Definition main_winds_up : list Label :=
  [MainWaitReturns; MainClosesResult; MainClosesLogger; MainPrintsNewline].

(** The log [after] holds what the log [before] held and possibly more;
    a log that was closed is the same, and a log is neither created nor
    dropped. *)
Definition log_extends (before after : option LogFile) : Prop :=
  match before, after with
  | None, None => True
  | Some f, Some f' =>
      (∃ t, written f' = written f +:+ t)
      ∧ (file_closed f = true -> f' = f)
  | _, _ => False
  end.

(** ** The invariant of the runs *)

Section Invariant.

Variable canonical_key : string -> string.

(** What holds in every state of every run of configuration [c]. *)
Record invariant (c : Config) (s : State) : Prop := {
  inv_wg : wg s = Z.of_nat (sum_list_with owes_done (workers s));
  inv_pool : length (workers s) = Z.to_nat (par c);
  inv_main : main_st s ≠ AtWait -> wg s = 0;
  inv_result :
    result_closed s = true ->
    main_st s ≠ AtWait ∧ main_st s ≠ AtCloseResult;
  inv_result_open :
    result_closed s = false ->
    main_st s = AtWait ∨ main_st s = AtCloseResult;
  inv_reader :
    match reader_st s with
    | ReaderNotStarted => False
    | ReaderReturned => result_closed s = true
    | _ => True
    end;
  inv_writer :
    match writer_st s with
    | WriterNotStarted => False
    | Selecting => work_closed s = false
    | WriterReturned => work_closed s = true ∧ timer_fired s = true
    end;
  inv_timer : timer_fired s = true -> 0 < duration c;
  inv_panic :
    panic s ≠ Some SendOnClosedChannel ∧ panic s ≠ Some NegativeWaitGroup;
  inv_holding : ∀ i u, workers s !! i = Some (Holding u) -> u ∈ urls c;
  inv_pushed : Forall (λ u, u ∈ urls c) (pushed s);
  inv_requests :
    Forall (λ r, URL r ∈ urls c
                 ∧ ReqHeader r = expected_header canonical_key c)
           (requests s)
}.

End Invariant.

(** ** Whole runs *)

Section WholeRuns.

Variable fmt_response : Response -> string.
Variable parse_error : string -> option error.
Variable canonical_key : string -> string.

(** A whole run of the process: the states one after the other, each
    reached from the one before by a step; the run goes on as long as a
    step is possible and stays where it is once none is. *)
Definition maximal_run (c : Config) (log : option LogFile)
  (σ : nat -> State) : Prop :=
  σ 0%nat = init c log
  ∧ ∀ n, (∃ l, step fmt_response parse_error canonical_key c l (σ n)
               = Some (σ (S n)))
         ∨ ((∀ l, step fmt_response parse_error canonical_key c l (σ n)
                  = None)
            ∧ σ (S n) = σ n).

(** Weak fairness of a run towards a step that disables itself when it
    is taken (the timer's firing, the writer's taking of the timer): from
    no point on is the step possible for ever. *)
Definition weakly_fair (c : Config) (l : Label) (σ : nat -> State) : Prop :=
  ∀ n, ∃ k, (n ≤ k)%nat
            ∧ step fmt_response parse_error canonical_key c l (σ k) = None.

(** The whole run that follows a schedule and then stays. *)
Definition run_of (c : Config) (log : option LogFile) (ls : list Label)
  : nat -> State :=
  λ n, default (init c log)
         (exec fmt_response parse_error canonical_key c (take n ls)
            (init c log)).

End WholeRuns.

(** ** Concrete surroundings for the examples *)

(** A parser that, like [net/url], rejects a text starting with a colon
    ([missing protocol scheme]) and accepts the other texts used below. *)
Definition sample_parse_error (url : string) : option error :=
  match url with
  | String c _ =>
      if Ascii.eqb c ":"%char
      then Some ("parse " +:+ dq +:+ url +:+ dq +:+ ": missing protocol scheme")
      else None
  | EmptyString => None
  end.

(** A stand-in for the library's formatting of a response structure. *)
Definition sample_fmt_response (r : Response) : string :=
  "&{" +:+ Status r +:+ "}".

(** Keys that are already canonical, such as [X-Test], are left as they
    are. *)
Definition sample_canonical_key (k : string) : string := k.

(** A file system in which one directory does not exist. *)
Definition sample_os_Create (path : string) : option error :=
  if String.eqb path "/nowhere/out.log"
  then Some "open /nowhere/out.log: no such file or directory"
  else None.

Definition sample_ok : Response :=
  {| Status := "200 OK"; StatusCode := 200;
     Header := [("Content-Type", ["text/plain"])];
     RequestURL := "http://a/ok"; Body := 1%nat |}.

Definition sample_missing : Response :=
  {| Status := "404 Not Found"; StatusCode := 404;
     Header := [("Content-Type", ["text/plain"])];
     RequestURL := "http://a/missing"; Body := 2%nat |}.

(** What [client.Do] returns when the connection fails: no response. *)
Definition sample_refused : responseWithError :=
  {| resp := None;
     err := Some "dial tcp 127.0.0.1:1: connect: connection refused" |}.

Definition empty_log : LogFile := {| written := ""; file_closed := false |}.

Definition sample_world : World :=
  {| stdout := ""; logger := Some empty_log; closed_bodies := [] |}.

Definition sample_step := step sample_fmt_response sample_parse_error
                               sample_canonical_key.
Definition sample_exec := exec sample_fmt_response sample_parse_error
                               sample_canonical_key.

(** The state a schedule leads to from the start (the start itself when
    the schedule cannot be run). *)
Definition sample_run (c : Config) (log : option LogFile) (ls : list Label)
  : State :=
  default (init c log) (sample_exec c ls (init c log)).

(** A URL list whose only entry the parser rejects. *)
Definition rejecting (n d : Z) : Config :=
  {| par := n; hdr := ""; val := ""; duration := d; urls := [":"] |}.

(** The single worker receives the URL, fails to build the request and
    leaves; [main] then runs to its end. *)
Definition one_worker_gives_up : list Label :=
  [WriterSends 0 0; WorkerRequests 0 (None, None); WorkerDone 0;
   MainWaitReturns; MainClosesResult; MainClosesLogger; MainPrintsNewline].


(** The scenario of the specification: two URLs, one worker. *)
Definition serving (d : Z) : Config :=
  {| par := 1; hdr := ""; val := "custom"; duration := d;
     urls := ["http://a/ok"; "http://a/missing"] |}.

(** One request is served, then the timer fires and the run is wound
    up. *)
Definition one_round_then_timeout : list Label :=
  [WriterSends 0 0; WorkerRequests 0 (Some sample_ok, None); WorkerSends 0;
   ReaderProcesses; TimerFires; WriterCloses; WorkerSeesClosed 0;
   WorkerDone 0; MainWaitReturns; MainClosesResult; ReaderSeesClosed;
   MainClosesLogger; MainPrintsNewline].

(** A request meets a refused connection and its outcome reaches the
    reader. *)
Definition refused_outcome_arrives : list Label :=
  [WriterSends 0 0;
   WorkerRequests 0 (resp sample_refused, err sample_refused);
   WorkerSends 0].

Definition sample_flags (header log : string) : Flags :=
  {| flag_par := 1; flag_header := header; flag_duration := 0;
     flag_log := log |}.

(** The scenario with a header configured. *)
Definition tagged : Config :=
  {| par := 1; hdr := "X-Test"; val := "custom"; duration := 5;
     urls := ["http://a/ok"; "http://a/missing"] |}.

(** A pool of no workers. *)
Definition idle (d : Z) : Config :=
  {| par := 0; hdr := ""; val := ""; duration := d;
     urls := ["http://a/ok"] |}.

(** The reader has received the last outcome, and [main] closes the log
    before the reader gets to process it. *)
Definition log_closed_before_last_record : list Label :=
  [WriterSends 0 0; WorkerRequests 0 (Some sample_ok, None); WorkerSends 0;
   TimerFires; WriterCloses; WorkerSeesClosed 0; WorkerDone 0;
   MainWaitReturns; MainClosesResult; MainClosesLogger].

(** ** Facts about the text helpers and the reader *)

Lemma sum_list_with_insert {A} (f : A -> nat) (l : list A) i x y :
  l !! i = Some x ->
  (sum_list_with f (<[i := y]> l) + f x = sum_list_with f l + f y)%nat.
Proof.
  revert i. induction l as [|a l IH]; intros [|i] Hi; simplify_eq/=.
  - lia.
  - specialize (IH _ Hi). lia.
Qed.

Lemma sum_list_with_zero {A} (f : A -> nat) (l : list A) :
  sum_list_with f l = 0%nat -> Forall (λ x, f x = 0%nat) l.
Proof.
  induction l as [|a l IH]; simpl; intros H; constructor.
  - lia.
  - apply IH. lia.
Qed.

Lemma owes_done_zero w : owes_done w = 0%nat -> w = Exited.
Proof. by destruct w. Qed.

Lemma cut_space_leading v : cut_space (" " +:+ v) = Some ("", v).
Proof. reflexivity. Qed.

Lemma Join_two_more (x : string) (rest : list string) (sep : string) :
  Join (x :: rest ++ [""; ""]) sep = x +:+ sep +:+ Join (rest ++ [""; ""]) sep.
Proof. simpl. by destruct rest. Qed.

Lemma holding_insert_other (ws : list WorkerState) i j w u :
  (∀ v, w ≠ Holding v) ->
  <[i := w]> ws !! j = Some (Holding u) -> ws !! j = Some (Holding u).
Proof.
  intros Hw. destruct (decide (i = j)) as [->|Hne].
  - intros H. apply list_lookup_insert_Some in H as [[_ [H _]]|[_ H]].
    + by destruct (Hw u).
    + done.
  - by rewrite list_lookup_insert_ne.
Qed.

(** ** Invariants of the runs *)

(** Closes the fields of the invariant that a step leaves as they were. *)
Ltac side :=
  try done; auto;
  try (by rewrite length_insert);
  try (by intros ? ? ?%holding_insert_other; eauto);
  try (intros _; by auto);
  try (intros; congruence);
  try (by match goal with
          | H : writer_st _ = _ |- _ => rewrite H
          | H : reader_st _ = _ |- _ => rewrite H
          end);
  try (by match goal with
          | |- context [writer_st ?s] => destruct (writer_st s); intuition
          end).


Section Invariants.

Variable fmt_response : Response -> string.
Variable parse_error : string -> option error.
Variable canonical_key : string -> string.

Local Abbreviation step := (step fmt_response parse_error canonical_key).
Local Abbreviation exec := (exec fmt_response parse_error canonical_key).
Local Abbreviation reachable :=
  (reachable fmt_response parse_error canonical_key).
Local Abbreviation invariant := (invariant canonical_key).

Lemma invariant_init c log : invariant c (init c log).
Proof.
  split; simpl; try done.
  - induction (Z.to_nat (par c)) as [|n IH]; simpl; [done|].
    rewrite Nat2Z.inj_succ, IH. simpl. lia.
  - by rewrite length_replicate.
  - auto.
  - intros i u [? _]%lookup_replicate. done.
Qed.

Lemma owes_done_exited (ws : list WorkerState) :
  sum_list_with owes_done ws = 0%nat -> Forall (λ w, w = Exited) ws.
Proof.
  intros H%sum_list_with_zero. eapply Forall_impl; [exact H|].
  apply owes_done_zero.
Qed.

Lemma worker_body_outcome hdr val u reply w :
  worker_body parse_error canonical_key hdr val u reply w =
  match parse_error u with
  | Some e =>
      Ok Break {| stdout := stdout w +:+ "Error creating request: " +:+ e;
                  logger := logger w;
                  closed_bodies := closed_bodies w |}
  | None =>
      Ok (Sends {| Method := "GET"; URL := u;
                   ReqHeader := if bool_decide (hdr ≠ "")
                                then [(canonical_key hdr, val)] else [] |}
                {| resp := fst reply; err := snd reply |}) w
  end.
Proof.
  unfold worker_body, NewRequest. destruct (parse_error u); [done|].
  by case_bool_decide.
Qed.

(** The only panics of [reader_body] are the nil dereference and the
    slice of an empty status. *)
Lemma reader_body_faults re w p w' :
  reader_body fmt_response re w = Fault p w' ->
  p = NilDereference ∨ p = SliceOutOfRange.
Proof.
  unfold reader_body, mbind, M_bind, mret, M_ret, deref, slice_0_1.
  destruct re as [[r|] [e|]]; simpl; try (intros [= <- _]; auto; fail);
    try done.
  destruct (StatusCode r =? 200); simpl; [done|].
  destruct (Status r); simpl; [intros [= <- _]; auto|done].
Qed.

Lemma invariant_step c l s s' :
  invariant c s -> step c l s = Some s' -> invariant c s'.
Proof.
  intros [Hwg Hpool Hmain Hres Hopen Hrd Hwr Htm Hpan Hhold Hpush Hreq].
  unfold step. destruct (alive s) eqn:Halive; [|done].
  destruct l; simpl.
  - (* TimerFires *)
    case_bool_decide as Hd; simpl; [|done].
    destruct (timer_fired s) eqn:Hf; simpl; [done|].
    intros [= <-]. split; simpl; side.
  - (* WriterCloses *)
    unfold writer_select. destruct (writer_st s) eqn:Hw; try done.
    destruct (timer_fired s) eqn:Hf; [|done].
    intros [= <-]. split; simpl; side.
  - (* WriterSends *)
    unfold writer_select. destruct (writer_st s) eqn:Hw; try done.
    destruct (workers s !! i) as [[]|] eqn:Hi; try done.
    destruct (urls c !! k) as [u|] eqn:Hk; try done.
    intros [= <-]. split; simpl; side.
    + pose proof (sum_list_with_insert owes_done _ _ _ (Holding u) Hi).
      simpl in *. lia.
    + intros j v Hj. destruct (decide (i = j)) as [->|Hne].
      * apply list_lookup_insert_Some in Hj as [[_ [[= ->] _]]|[? _]];
          [|done]. eapply list_elem_of_lookup_2; eauto.
      * rewrite list_lookup_insert_ne in Hj by done. eauto.
    + apply Forall_app; split; [done|]. constructor; [|done].
      eapply list_elem_of_lookup_2; eauto.
  - (* WorkerSeesClosed *)
    destruct (workers s !! i) as [[]|] eqn:Hi; try done.
    destruct (work_closed s) eqn:Hc; [|done].
    intros [= <-]. split; simpl; side.
    pose proof (sum_list_with_insert owes_done _ _ _ Leaving Hi).
    simpl in *. lia.
  - (* WorkerRequests *)
    destruct (workers s !! i) as [[|u| | |]|] eqn:Hi; try done.
    rewrite worker_body_outcome.
    destruct (parse_error u) as [e|] eqn:He; intros [= <-].
    + split; simpl; side.
      pose proof (sum_list_with_insert owes_done _ _ _ Leaving Hi).
      simpl in *. lia.
    + split; simpl; side.
      * pose proof (sum_list_with_insert owes_done _ _ _
                      (Sending {| resp := fst reply; err := snd reply |}) Hi).
        simpl in *. lia.
      * apply Forall_app; split; [done|]. constructor; [|done].
        simpl. split; [eauto|done].
  - (* WorkerSends *)
    destruct (workers s !! i) as [[| |re| |]|] eqn:Hi; try done.
    destruct (result_closed s) eqn:Hc.
    + exfalso. destruct (Hres eq_refl) as [Hm _].
      specialize (Hmain Hm).
      assert (sum_list_with owes_done (workers s) = 0%nat) as H0 by lia.
      apply owes_done_exited in H0.
      eapply Forall_lookup_1 in H0; [|exact Hi]. done.
    + destruct (reader_st s) eqn:Hr; try done.
      intros [= <-]. split; simpl; side.
      pose proof (sum_list_with_insert owes_done _ _ _ Receiving Hi).
      simpl in *. lia.
  - (* WorkerDone *)
    destruct (workers s !! i) as [[]|] eqn:Hi; try done.
    pose proof (sum_list_with_insert owes_done _ _ _ Exited Hi) as Hs.
    simpl in Hs.
    destruct (wg s =? 0) eqn:Hz; [lia|].
    intros [= <-]. split; simpl; side.
    + lia.
    + intros Hm. specialize (Hmain Hm). lia.
  - (* ReaderProcesses *)
    unfold reader_step. destruct (reader_st s) eqn:Hr; try done.
    destruct (reader_body fmt_response re (world s)) as [[] w|p w] eqn:Hb;
      intros [= <-]; split; simpl; side.
    apply reader_body_faults in Hb. by destruct Hb as [-> | ->].
  - (* ReaderSeesClosed *)
    unfold reader_step. destruct (reader_st s) eqn:Hr; try done.
    destruct (result_closed s) eqn:Hc; [|done].
    intros [= <-]. split; simpl; side.
  - (* MainWaitReturns *)
    unfold main_step. destruct (main_st s) eqn:Hm; try done.
    destruct (wg s =? 0) eqn:Hz; [|done].
    intros [= <-]. split; simpl; side.
    + intros _. lia.
    + intros Hc. by destruct (Hres Hc) as [? _].
  - (* MainClosesResult *)
    unfold main_step. destruct (main_st s) eqn:Hm; try done.
    intros [= <-]. split; simpl; side.
    by destruct (reader_st s).
  - (* MainClosesLogger *)
    unfold main_step. destruct (main_st s) eqn:Hm; try done.
    intros [= <-]. split; simpl; side.
    intros Hc. by destruct (Hopen Hc).
  - (* MainPrintsNewline *)
    unfold main_step. destruct (main_st s) eqn:Hm; try done.
    simpl. intros [= <-]. split; simpl; side.
    intros Hc. by destruct (Hopen Hc).
Qed.

Lemma reachable_invariant c log s : reachable c log s -> invariant c s.
Proof.
  induction 1 as [|s l s' _ IH Hstep].
  - apply invariant_init.
  - eapply invariant_step; eauto.
Qed.

Lemma exec_reachable c log ls s s' :
  reachable c log s -> exec c ls s = Some s' -> reachable c log s'.
Proof.
  revert s. induction ls as [|l ls IH]; simpl; intros s Hs.
  - by intros [= <-].
  - destruct (step c l s) as [s1|] eqn:Hstep; [|done].
    apply IH. econstructor; eauto.
Qed.

Lemma step_alive c l s s' : step c l s = Some s' -> alive s = true.
Proof. unfold step. by destruct (alive s). Qed.

(** ** The steps left *)

Lemma fuel_le_sum s : (fuel s ≤ fuel_sum s)%nat.
Proof. unfold fuel, fuel_sum. destruct (alive s); lia. Qed.

Lemma fuel_alive s :
  alive s = true -> fuel s = fuel_sum s ∧ (1 ≤ main_fuel (main_st s))%nat.
Proof.
  intros Ha. unfold fuel. rewrite Ha. split; [done|].
  unfold alive in Ha. destruct (panic s); [done|].
  destruct (main_st s); simpl; try done; lia.
Qed.

Lemma fuel_dead s : alive s = false -> fuel s = 0%nat.
Proof. unfold fuel. by intros ->. Qed.

Lemma alive_set_panic p s : alive (set_panic p s) = false.
Proof. done. Qed.

(** Every step uses up fuel, except that a hand-over of work gives the
    receiving worker the fuel for one more round. *)
Lemma step_fuel c l s s' :
  step c l s = Some s' -> (fuel s' + 1 ≤ fuel s + 4 * is_send l)%nat.
Proof.
  intros Hstep. pose proof (step_alive _ _ _ _ Hstep) as Ha.
  destruct (fuel_alive _ Ha) as [-> Hm].
  assert ((fuel_sum s' + 1 ≤ fuel_sum s + 4 * is_send l)%nat
          ∨ alive s' = false) as [H|H].
  2:{ pose proof (fuel_le_sum s'). lia. }
  2:{ rewrite (fuel_dead _ H). unfold fuel_sum. lia. }
  revert Hstep. unfold step. rewrite Ha. unfold fuel_sum, writer_fuel.
  destruct l; simpl.
  - case_bool_decide; simpl; [|done].
    destruct (timer_fired s) eqn:Hf; simpl; [done|].
    intros [= <-]. simpl. rewrite ?Hf. left. lia.
  - unfold writer_select. destruct (writer_st s) eqn:Hw; try done.
    destruct (timer_fired s) eqn:Hf; [|done].
    intros [= <-]. simpl. rewrite ?Hf. left. lia.
  - unfold writer_select. destruct (writer_st s) eqn:Hw; try done.
    destruct (workers s !! i) as [[]|] eqn:Hi; try done.
    destruct (urls c !! k) as [u|] eqn:Hk; try done.
    intros [= <-]. simpl. rewrite ?Hw. left.
    pose proof (sum_list_with_insert worker_fuel _ _ _ (Holding u) Hi).
    simpl in *. lia.
  - destruct (workers s !! i) as [[]|] eqn:Hi; try done.
    destruct (work_closed s); [|done].
    intros [= <-]. simpl. left.
    pose proof (sum_list_with_insert worker_fuel _ _ _ Leaving Hi).
    simpl in *. lia.
  - destruct (workers s !! i) as [[|u| | |]|] eqn:Hi; try done.
    rewrite worker_body_outcome.
    destruct (parse_error u) as [e|]; intros [= <-]; simpl; left.
    + pose proof (sum_list_with_insert worker_fuel _ _ _ Leaving Hi).
      simpl in *. lia.
    + pose proof (sum_list_with_insert worker_fuel _ _ _
                    (Sending {| resp := fst reply; err := snd reply |}) Hi).
      simpl in *. lia.
  - destruct (workers s !! i) as [[| |re| |]|] eqn:Hi; try done.
    destruct (result_closed s); [intros [= <-]; by right|].
    destruct (reader_st s) eqn:Hr; try done.
    intros [= <-]. simpl. left.
    pose proof (sum_list_with_insert worker_fuel _ _ _ Receiving Hi).
    simpl in *. lia.
  - destruct (workers s !! i) as [[]|] eqn:Hi; try done.
    destruct (wg s =? 0); intros [= <-]; [by right|]. simpl. left.
    pose proof (sum_list_with_insert worker_fuel _ _ _ Exited Hi).
    simpl in *. lia.
  - unfold reader_step. destruct (reader_st s) eqn:Hr; try done.
    destruct (reader_body fmt_response re (world s)) as [[] w|p w];
      intros [= <-]; [|by right]. simpl. left. lia.
  - unfold reader_step. destruct (reader_st s) eqn:Hr; try done.
    destruct (result_closed s); [|done].
    intros [= <-]. simpl. left. lia.
  - unfold main_step. destruct (main_st s) eqn:Hs; try done.
    destruct (wg s =? 0); [|done]. intros [= <-]. simpl. left. lia.
  - unfold main_step. destruct (main_st s) eqn:Hs; try done.
    intros [= <-]. simpl. left. lia.
  - unfold main_step. destruct (main_st s) eqn:Hs; try done.
    intros [= <-]. simpl. left. lia.
  - unfold main_step. destruct (main_st s) eqn:Hs; try done.
    intros [= <-]. simpl. left. lia.
Qed.

Lemma exec_fuel c ls s s' :
  exec c ls s = Some s' ->
  (fuel s' + length ls ≤ fuel s + 4 * sum_list_with is_send ls)%nat.
Proof.
  revert s. induction ls as [|l ls IH]; simpl; intros s.
  - intros [= <-]. lia.
  - destruct (step c l s) as [s1|] eqn:Hstep; [|done].
    intros H. specialize (IH _ H). pose proof (step_fuel _ _ _ _ Hstep). lia.
Qed.

(** Once the writer has returned it stays so, and hands out no work. *)
Lemma step_writer_returned c l s s' :
  writer_st s = WriterReturned -> step c l s = Some s' ->
  writer_st s' = WriterReturned ∧ is_send l = 0%nat.
Proof.
  intros Hw. unfold step. destruct (alive s); [|done].
  destruct l; simpl;
    unfold writer_select, reader_step, main_step; rewrite ?Hw;
    repeat case_match; intros [= <-]; done.
Qed.

Lemma exec_writer_returned c ls s s' :
  writer_st s = WriterReturned -> exec c ls s = Some s' ->
  sum_list_with is_send ls = 0%nat.
Proof.
  revert s. induction ls as [|l ls IH]; simpl; intros s Hw; [done|].
  destruct (step c l s) as [s1|] eqn:Hstep; [|done].
  destruct (step_writer_returned _ _ _ _ Hw Hstep) as [Hw1 ->].
  intros H. by rewrite (IH _ Hw1 H).
Qed.

(** ** No deadlock while the timer is armed *)

Lemma owes_done_pending (ws : list WorkerState) :
  sum_list_with owes_done ws ≠ 0%nat ->
  ∃ i w, ws !! i = Some w ∧ w ≠ Exited.
Proof.
  induction ws as [|a ws IH]; simpl; [done|].
  destruct (decide (owes_done a = 0%nat)) as [Ha|Ha].
  - intros H. destruct IH as (i & w & Hi & Hw); [lia|].
    by exists (S i), w.
  - intros _. exists 0%nat, a. split; [done|]. by intros ->.
Qed.

Lemma step_unfold c l s :
  alive s = true ->
  step c l s =
  match l with
  | TimerFires =>
      if bool_decide (0 < duration c) && negb (timer_fired s)
      then Some (set_timer_fired true s) else None
  | WriterCloses | WriterSends _ _ => writer_select c l s
  | WorkerSeesClosed _ | WorkerRequests _ _ | WorkerSends _
  | WorkerDone _ => worker_step parse_error canonical_key c l s
  | ReaderProcesses | ReaderSeesClosed => reader_step fmt_response l s
  | MainWaitReturns | MainClosesResult | MainClosesLogger
  | MainPrintsNewline => main_step l s
  end.
Proof. unfold step. by intros ->. Qed.

(** With the timer armed, a writer inside its loop can always move: the
    timer fires, and once it has fired the [select] can take it. *)
Lemma writer_can_move c s :
  0 < duration c -> alive s = true -> writer_st s = Selecting ->
  if timer_fired s then is_Some (step c WriterCloses s)
  else is_Some (step c TimerFires s).
Proof.
  intros Hd Ha Hw. rewrite !step_unfold by done.
  unfold writer_select. rewrite Hw.
  destruct (timer_fired s); simpl; [done|].
  by rewrite bool_decide_eq_true_2.
Qed.

Lemma no_deadlock c log s :
  0 < duration c -> reachable c log s -> alive s = true ->
  ∃ l, is_Some (step c l s).
Proof.
  intros Hd Hs Ha.
  destruct (reachable_invariant _ _ _ Hs)
    as [Hwg _ _ _ _ Hrd Hwr _ _ _ _ _].
  destruct (writer_st s) eqn:Hw; [done| |].
  { pose proof (writer_can_move _ _ Hd Ha Hw) as H.
    destruct (timer_fired s); eauto. }
  destruct Hwr as [Hclosed _].
  destruct (main_st s) eqn:Hm.
  - destruct (decide (wg s = 0)) as [Hz|Hz].
    { exists MainWaitReturns. rewrite step_unfold by done.
      unfold main_step. rewrite Hm, Hz. done. }
    destruct (owes_done_pending (workers s)) as (i & w & Hi & Hne); [lia|].
    destruct w as [|u|re| |]; [| | | |done].
    + exists (WorkerSeesClosed i). rewrite step_unfold by done.
      simpl. by rewrite Hi, Hclosed.
    + exists (WorkerRequests i (None, None)). rewrite step_unfold by done.
      simpl. rewrite Hi, worker_body_outcome. by destruct (parse_error u).
    + destruct (result_closed s) eqn:Hc.
      { exists (WorkerSends i). rewrite step_unfold by done.
        simpl. by rewrite Hi, Hc. }
      destruct (reader_st s) eqn:Hr; [done| | |congruence].
      * exists (WorkerSends i). rewrite step_unfold by done.
        simpl. by rewrite Hi, Hc, Hr.
      * exists ReaderProcesses. rewrite step_unfold by done.
        unfold reader_step. rewrite Hr.
        by destruct (reader_body fmt_response re0 (world s)).
    + exists (WorkerDone i). rewrite step_unfold by done.
      simpl. rewrite Hi. by destruct (wg s =? 0).
  - exists MainClosesResult. rewrite step_unfold by done.
    unfold main_step. by rewrite Hm.
  - exists MainClosesLogger. rewrite step_unfold by done.
    unfold main_step. by rewrite Hm.
  - exists MainPrintsNewline. rewrite step_unfold by done.
    unfold main_step. by rewrite Hm.
  - unfold alive in Ha. rewrite Hm in Ha. by destruct (panic s).
Qed.

(** ** The shutdown order *)

(** C4.  In every state of every run: if the outcome queue ([result]) is
    closed then the wait group is at zero, every worker has finished and
    [main] is past [close(result)]; hence no worker is blocked on, or can
    take, a send on the closed queue, and the panic of a send on a closed
    channel never occurs. *)
Theorem result_closed_after_all_workers c log s :
  reachable c log s ->
  (result_closed s = true ->
     wg s = 0
     ∧ Forall (λ w, w = Exited) (workers s)
     ∧ main_st s ≠ AtWait ∧ main_st s ≠ AtCloseResult)
  ∧ (∀ i re, workers s !! i = Some (Sending re) -> result_closed s = false)
  ∧ (∀ i, result_closed s = true -> step c (WorkerSends i) s = None)
  ∧ panic s ≠ Some SendOnClosedChannel.
Proof.
  intros Hs.
  destruct (reachable_invariant _ _ _ Hs)
    as [Hwg _ Hmain Hres _ _ _ _ [Hpan _] _ _ _].
  assert (result_closed s = true ->
          wg s = 0 ∧ Forall (λ w, w = Exited) (workers s)
          ∧ main_st s ≠ AtWait ∧ main_st s ≠ AtCloseResult) as Hclosed.
  { intros Hc. destruct (Hres Hc) as [Hm1 Hm2].
    pose proof (Hmain Hm1) as Hz. repeat split; try done.
    apply owes_done_exited. lia. }
  repeat split; try done; try (by apply Hclosed).
  - intros i re Hi. destruct (result_closed s) eqn:Hc; [|done].
    destruct (Hclosed eq_refl) as (_ & Hall & _).
    eapply Forall_lookup_1 in Hall; [|exact Hi]. done.
  - intros i Hc. destruct (Hclosed Hc) as (_ & Hall & _).
    unfold step. destruct (alive s); [|done]. simpl.
    destruct (workers s !! i) as [w|] eqn:Hi; [|done].
    eapply Forall_lookup_1 in Hall; [|exact Hi]. by subst w.
Qed.

(** ** Where the URLs come from *)

(** C7.  In every state of every run, every URL the writer has handed
    over on the work queue is an element of the configured URL list, and
    so is the URL of every request a worker has passed to the client (and
    of every URL a worker currently holds). *)
Theorem dispatched_urls_are_configured c log s :
  reachable c log s ->
  Forall (λ u, u ∈ urls c) (pushed s)
  ∧ Forall (λ r, URL r ∈ urls c) (requests s)
  ∧ (∀ i u, workers s !! i = Some (Holding u) -> u ∈ urls c).
Proof.
  intros Hs.
  destruct (reachable_invariant _ _ _ Hs)
    as [_ _ _ _ _ _ _ _ _ Hhold Hpush Hreq].
  repeat split; try done.
  eapply Forall_impl; [exact Hreq|]. by intros r [? _].
Qed.

(** ** Runs without a time limit *)

Lemma lookup_insert_cases {A} (l : list A) i j x y :
  <[i := x]> l !! j = Some y -> (j = i ∧ y = x) ∨ l !! j = Some y.
Proof.
  intros H. apply list_lookup_insert_Some in H as [(-> & -> & _)|[_ H]]; auto.
Qed.




(** ** Runs with a time limit *)

Lemma worker_fuel_bound (ws : list WorkerState) :
  (sum_list_with worker_fuel ws ≤ 5 * length ws)%nat.
Proof.
  induction ws as [|w ws IH]; simpl; [lia|]. destruct w; simpl; lia.
Qed.

(** ** A URL that cannot be turned into a request *)




End Invariants.

(** ** The reader on one outcome *)

Section ReaderFacts.

Variable fmt_response : Response -> string.

(** What [reader_body] does with an outcome that carries a response whose
    status text is not empty: the body is closed, one symbol is printed
    and, when a log is configured and open, one record is written. *)
Lemma reader_body_with_response re r c rest w :
  resp re = Some r -> Status r = String c rest ->
  reader_body fmt_response re w =
  Ok tt {| stdout := stdout w +:+ reader_symbol re r;
           logger := (λ f, WriteString f
                             (Join (reader_lines fmt_response re r
                                    ++ [""; ""]) nl))
                     <$> logger w;
           closed_bodies := closed_bodies w ++ [Body r] |}.
Proof.
  intros Hr Hs. unfold reader_body, reader_symbol, reader_lines.
  unfold mbind, M_bind, mret, M_ret, deref. rewrite Hr. simpl.
  destruct (err re) as [e|]; simpl; [done|].
  destruct (StatusCode r =? 200); simpl; [done|].
  unfold slice_0_1. rewrite Hs. done.
Qed.

(** The text of a record: the lines, each ended by a newline, and one
    more newline. *)
Lemma record_text (lines : list string) :
  Join (lines ++ [""; ""]) nl =
  foldr (λ x acc, x +:+ nl +:+ acc) nl lines.
Proof.
  induction lines as [|x lines IH]; [done|].
  change ((x :: lines) ++ [""; ""]) with (x :: lines ++ [""; ""]).
  rewrite Join_two_more, IH. done.
Qed.

(** C1 (the code at the failing input).  On an outcome that carries an
    error and no response (what [client.Do] returns when the transport
    fails) [reader_body] panics with a nil dereference at its first
    statement: nothing is printed, so the symbol [e] does not appear. *)
Theorem transport_error_prints_no_symbol e w :
  ∃ w', reader_body fmt_response {| resp := None; err := Some e |} w
        = Fault NilDereference w'
        ∧ stdout w' = stdout w.
Proof. by exists w. Qed.

(** C2 (the code at the failing input).  On an outcome without a response,
    with or without an error, [reader_body] dereferences the nil response
    and faults; no body is closed. *)
Theorem nil_response_is_dereferenced oe w :
  reader_body fmt_response {| resp := None; err := oe |} w
  = Fault NilDereference w
  ∧ ∀ w', reader_body fmt_response {| resp := None; err := oe |} w
          ≠ Ok tt w'.
Proof. split; [done|]. intros w'. done. Qed.

End ReaderFacts.

(** ** The set-up *)

Section SetupFacts.

Variable fmt_response : Response -> string.
Variable parse_error : string -> option error.
Variable canonical_key : string -> string.
Variable os_Create : string -> option error.

Local Abbreviation step := (step fmt_response parse_error canonical_key).
Local Abbreviation reachable :=
  (reachable fmt_response parse_error canonical_key).

Lemma parse_header_cases header :
  (header ≠ "" ∧ length (SplitN_space_2 header) ≠ 2%nat
   ∧ parse_header header = inl ("Error: bad header " +:+ header +:+ nl))
  ∨ (¬ (header ≠ "" ∧ length (SplitN_space_2 header) ≠ 2%nat)
     ∧ ∃ h v, parse_header header = inr (h, v)).
Proof.
  unfold parse_header, SplitN_space_2. case_bool_decide as Hne.
  - destruct (cut_space header) as [[a b]|]; simpl.
    + right. split; [|by eauto]. intros [_ H]. done.
    + left. done.
  - right. split; [|by eauto]. intros [H _]. done.
Qed.

Lemma open_log_cases log :
  (∃ e, log ≠ "" ∧ os_Create log = Some e
        ∧ open_log os_Create log
          = inl ("Error creating log file " +:+ log +:+ ": " +:+ e +:+ nl))
  ∨ ((∀ e, ¬ (log ≠ "" ∧ os_Create log = Some e))
     ∧ ∃ lg, open_log os_Create log = inr lg).
Proof.
  unfold open_log. case_bool_decide as Hne.
  - destruct (os_Create log) as [e|] eqn:He.
    + left. by exists e.
    + right. split; [|by eauto]. intros e [_ H]. done.
  - right. split; [|by eauto]. intros e [H _]. done.
Qed.

Lemma halted_is_final out log c l : step c l (halted out log) = None.
Proof. done. Qed.

(** C8.  If the header flag is rejected, or the log file cannot be
    created, or no URL is left after the empty lines are dropped, then
    [main] returns after one diagnostic, which is all the standard output
    holds: the bad-header text, else the log-file text, else the no-URL
    text; no worker, writer or reader was started, no URL was handed over,
    no request was made, and the process takes no further step. *)
Theorem fatal_configuration f stdin :
  header_rejected f ∨ (∃ e, log_unwritable os_Create f e) ∨ no_urls stdin ->
  ∃ msg log,
    main_setup os_Create f stdin = Fatal msg log
    ∧ ((header_rejected f
        ∧ msg = "Error: bad header " +:+ flag_header f +:+ nl)
       ∨ (¬ header_rejected f
          ∧ ∃ e, log_unwritable os_Create f e
                 ∧ msg = "Error creating log file " +:+ flag_log f
                         +:+ ": " +:+ e +:+ nl)
       ∨ (¬ header_rejected f ∧ (∀ e, ¬ log_unwritable os_Create f e)
          ∧ no_urls stdin ∧ msg = "Error: no URLs found"))
    ∧ stdout (world (start (main_setup os_Create f stdin))) = msg
    ∧ workers (start (main_setup os_Create f stdin)) = []
    ∧ writer_st (start (main_setup os_Create f stdin)) = WriterNotStarted
    ∧ reader_st (start (main_setup os_Create f stdin)) = ReaderNotStarted
    ∧ pushed (start (main_setup os_Create f stdin)) = []
    ∧ requests (start (main_setup os_Create f stdin)) = []
    ∧ main_st (start (main_setup os_Create f stdin)) = Returned
    ∧ ∀ c l, step c l (start (main_setup os_Create f stdin)) = None.
Proof.
  intros Hfatal. unfold main_setup.
  unfold header_rejected, log_unwritable, no_urls in *.
  destruct (parse_header_cases (flag_header f))
    as [(Hne & Hlen & ->)|[Hok (h & v & ->)]].
  { eexists _, _. split; [done|]. split; [by left|]. by repeat split. }
  destruct (open_log_cases (flag_log f))
    as [(e & Hne & He & ->)|[Hlog (lg & ->)]].
  { eexists _, _. split; [done|].
    split; [right; left; by eauto|]. by repeat split. }
  destruct Hfatal as [?|[[e ?]|Hnone]]; [done|by destruct (Hlog e)|].
  rewrite Hnone. simpl.
  eexists _, _. split; [done|].
  split; [by right; right|]. by repeat split.
Qed.

(** C10.  A header flag that starts with a space, a space followed by
    [v], is not rejected: it parses to the empty name and the value [v];
    whenever the set-up goes on to start the goroutines the configuration
    has the empty name, and in every state of every run no request that
    was made carries a header. *)
Theorem leading_space_header_is_dropped f stdin v :
  flag_header f = " " +:+ v ->
  ¬ header_rejected f
  ∧ parse_header (flag_header f) = inr ("", v)
  ∧ (∀ log, main_setup os_Create f stdin
            ≠ Fatal ("Error: bad header " +:+ flag_header f +:+ nl) log)
  ∧ ∀ c log, main_setup os_Create f stdin = Ready c log ->
      hdr c = "" ∧ val c = v
      ∧ ∀ s, reachable c log s ->
             Forall (λ r, ReqHeader r = []) (requests s).
Proof.
  intros Hh.
  assert (parse_header (flag_header f) = inr ("", v)) as Hp.
  { rewrite Hh. reflexivity. }
  split; [|split; [done|split]].
  - unfold header_rejected. rewrite Hh. intros [_ H]. by apply H.
  - intros log. unfold main_setup. rewrite Hp.
    destruct (open_log os_Create (flag_log f)) as [msg|lg] eqn:Hl.
    + unfold open_log in Hl. case_bool_decide; [|done].
      destruct (os_Create (flag_log f)); [|done].
      injection Hl as <-. rewrite Hh. simpl. intros [= ?].
    + case_bool_decide; [|done]. rewrite Hh. simpl. intros [= ?].
  - intros c log. unfold main_setup. rewrite Hp.
    destruct (open_log os_Create (flag_log f)) as [msg|lg]; [done|].
    case_bool_decide; [done|]. intros [= <- <-]. simpl.
    split; [done|split; [done|]]. intros s Hs.
    destruct (reachable_invariant _ _ _ _ _ _ Hs)
      as [_ _ _ _ _ _ _ _ _ _ _ Hreq].
    eapply Forall_impl; [exact Hreq|]. by intros r [_ ->].
Qed.

End SetupFacts.

(** ** A transport error at the reader, seen from the whole process *)

Section ReaderInTheRun.

Variable fmt_response : Response -> string.
Variable parse_error : string -> option error.
Variable canonical_key : string -> string.

Local Abbreviation step := (step fmt_response parse_error canonical_key).

(** C9 (the code at the failing input).  When the reader holds an outcome
    with an error and no response, its next step is the nil-dereference
    panic: the log and the standard output are left as they were, so no
    record is written for the outcome, and the process is over. *)
Theorem transport_error_leaves_no_record c s e :
  alive s = true ->
  reader_st s = Processing {| resp := None; err := Some e |} ->
  ∃ s', step c ReaderProcesses s = Some s'
    ∧ panic s' = Some NilDereference
    ∧ logger (world s') = logger (world s)
    ∧ stdout (world s') = stdout (world s)
    ∧ alive s' = false
    ∧ ∀ l, step c l s' = None.
Proof.
  intros Ha Hr. eexists. split.
  { rewrite step_unfold by done. unfold reader_step.
    rewrite Hr. reflexivity. }
  by repeat split.
Qed.

End ReaderInTheRun.

(** ** The theorems on concrete runs *)

Abbreviation sample_reachable :=
  (reachable sample_fmt_response sample_parse_error sample_canonical_key).

Lemma sample_run_reachable c log ls s :
  sample_exec c ls (init c log) = Some s -> sample_reachable c log s.
Proof. apply exec_reachable. constructor. Qed.



Lemma result_closed_after_all_workers_witness :
  sample_reachable (serving 5) (Some empty_log)
    (sample_run (serving 5) (Some empty_log) one_round_then_timeout)
  ∧ result_closed
      (sample_run (serving 5) (Some empty_log) one_round_then_timeout) = true
  ∧ wg (sample_run (serving 5) (Some empty_log) one_round_then_timeout) = 0
  ∧ panic (sample_run (serving 5) (Some empty_log) one_round_then_timeout)
    ≠ Some SendOnClosedChannel.
Proof.
  assert (sample_reachable (serving 5) (Some empty_log)
            (sample_run (serving 5) (Some empty_log) one_round_then_timeout))
    as Hs
    by (apply (sample_run_reachable _ _ one_round_then_timeout);
        vm_compute; reflexivity).
  assert (result_closed (sample_run (serving 5) (Some empty_log)
                           one_round_then_timeout) = true) as Hc
    by (vm_compute; reflexivity).
  split; [exact Hs|]. split; [exact Hc|].
  destruct (result_closed_after_all_workers _ _ _ _ _ _ Hs)
    as (Hclosed & _ & _ & Hpanic).
  split; [exact (proj1 (Hclosed Hc))|exact Hpanic].
Defined.

Lemma dispatched_urls_are_configured_witness :
  sample_reachable (serving 5) (Some empty_log)
    (sample_run (serving 5) (Some empty_log) one_round_then_timeout)
  ∧ Forall (λ u, u ∈ urls (serving 5))
      (pushed (sample_run (serving 5) (Some empty_log)
                 one_round_then_timeout))
  ∧ Forall (λ r, URL r ∈ urls (serving 5))
      (requests (sample_run (serving 5) (Some empty_log)
                   one_round_then_timeout)).
Proof.
  assert (sample_reachable (serving 5) (Some empty_log)
            (sample_run (serving 5) (Some empty_log) one_round_then_timeout))
    as Hs
    by (apply (sample_run_reachable _ _ one_round_then_timeout);
        vm_compute; reflexivity).
  split; [exact Hs|].
  destruct (dispatched_urls_are_configured _ _ _ _ _ _ Hs) as (Hp & Hr & _).
  split; [exact Hp|exact Hr].
Defined.

(** With a duration of an hour and a rejected URL the process ends at
    once: the timer has not fired and the work queue was never closed. *)
Lemma timed_run_ends_before_the_timer :
  ∃ s, sample_exec (rejecting 1 3600) one_worker_gives_up
         (init (rejecting 1 3600) None) = Some s
       ∧ 0 < duration (rejecting 1 3600)
       ∧ main_st s = Returned
       ∧ alive s = false
       ∧ timer_fired s = false
       ∧ work_closed s = false
       ∧ writer_st s = Selecting.
Proof.
  eexists. split; [vm_compute; reflexivity|].
  vm_compute. repeat split; discriminate.
Qed.



Lemma fatal_configuration_witness :
  header_rejected (sample_flags "BadHeader" "")
  ∧ ∃ msg log,
      main_setup sample_os_Create (sample_flags "BadHeader" "")
        ["http://a/ok"] = Fatal msg log
      ∧ msg = "Error: bad header BadHeader" +:+ nl
      ∧ requests (start (main_setup sample_os_Create
                           (sample_flags "BadHeader" "") ["http://a/ok"]))
        = [].
Proof.
  assert (header_rejected (sample_flags "BadHeader" "")) as Hbad.
  { split; [discriminate|]. simpl. discriminate. }
  split; [exact Hbad|].
  destruct (fatal_configuration sample_fmt_response sample_parse_error
              sample_canonical_key sample_os_Create
              (sample_flags "BadHeader" "") ["http://a/ok"]
              (or_introl Hbad))
    as (msg & log & Hsetup & _ & Hout & _ & _ & _ & _ & Hreq & _).
  exists msg, log. split; [exact Hsetup|]. split; [|exact Hreq].
  rewrite <- Hout. reflexivity.
Defined.

Lemma leading_space_header_is_dropped_witness :
  flag_header (sample_flags " custom" "") = " " +:+ "custom"
  ∧ parse_header (flag_header (sample_flags " custom" ""))
    = inr ("", "custom")
  ∧ Forall (λ r, ReqHeader r = [])
      (requests (sample_run (serving 0) None
                   [WriterSends 0 0; WorkerRequests 0 (Some sample_ok, None)])).
Proof.
  split; [reflexivity|].
  destruct (leading_space_header_is_dropped sample_fmt_response
              sample_parse_error sample_canonical_key sample_os_Create
              (sample_flags " custom" "")
              ["http://a/ok"; ""; "http://a/missing"] "custom" eq_refl)
    as (_ & Hparse & _ & Hready).
  split; [exact Hparse|].
  assert (main_setup sample_os_Create (sample_flags " custom" "")
            ["http://a/ok"; ""; "http://a/missing"]
          = Ready (serving 0) None) as Hsetup
    by (vm_compute; reflexivity).
  destruct (Hready (serving 0) None Hsetup) as (_ & _ & Hreq).
  apply Hreq.
  apply (sample_run_reachable _ _
           [WriterSends 0 0; WorkerRequests 0 (Some sample_ok, None)]).
  vm_compute; reflexivity.
Defined.

Lemma transport_error_leaves_no_record_witness :
  alive (sample_run (serving 0) (Some empty_log) refused_outcome_arrives)
  = true
  ∧ reader_st (sample_run (serving 0) (Some empty_log)
                 refused_outcome_arrives)
    = Processing sample_refused
  ∧ ∃ s', sample_step (serving 0) ReaderProcesses
            (sample_run (serving 0) (Some empty_log) refused_outcome_arrives)
          = Some s'
          ∧ panic s' = Some NilDereference
          ∧ logger (world s') = Some empty_log
          ∧ stdout (world s') = "".
Proof.
  assert (alive (sample_run (serving 0) (Some empty_log)
                   refused_outcome_arrives) = true) as Ha
    by (vm_compute; reflexivity).
  assert (reader_st (sample_run (serving 0) (Some empty_log)
                       refused_outcome_arrives)
          = Processing sample_refused) as Hr
    by (vm_compute; reflexivity).
  split; [exact Ha|]. split; [exact Hr|].
  destruct (transport_error_leaves_no_record sample_fmt_response
              sample_parse_error sample_canonical_key (serving 0) _ _ Ha Hr)
    as (s' & Hstep & Hp & Hlog & Hout & _).
  exists s'. split; [exact Hstep|]. split; [exact Hp|].
  split; [exact Hlog|exact Hout].
Defined.

(** ** More on the reader's loop body *)

Lemma append_nil_r (s : string) : s +:+ "" = s.
Proof.
  induction s as [|c s IH]; [done|].
  change (String c (s +:+ "") = String c s). by rewrite IH.
Qed.

Lemma append_assoc (s t u : string) : (s +:+ t) +:+ u = s +:+ t +:+ u.
Proof.
  induction s as [|c s IH]; [done|].
  change (String c ((s +:+ t) +:+ u) = String c (s +:+ t +:+ u)).
  by rewrite IH.
Qed.

Lemma length_append (s t : string) :
  String.length (s +:+ t) = (String.length s + String.length t)%nat.
Proof.
  induction s as [|c s IH]; [done|].
  change (S (String.length (s +:+ t))
          = S (String.length s + String.length t)). by rewrite IH.
Qed.

Section ReaderOutcomes.

Variable fmt_response : Response -> string.

(** X1.  An outcome that carries a response with a status text is
    processed without fault: exactly one character is added to the
    standard output, the response body is closed once, and the log, when
    there is one, receives one record through [WriteString]: the request
    URL and at least one more line, each ended by a newline, and a final
    newline. *)
Theorem outcome_with_response_is_reported re r w :
  resp re = Some r -> Status r ≠ "" ->
  reader_body fmt_response re w =
    Ok tt {| stdout := stdout w +:+ reader_symbol re r;
             logger := (λ f, WriteString f
                               (record_of (reader_lines fmt_response re r)))
                       <$> logger w;
             closed_bodies := closed_bodies w ++ [Body r] |}
  ∧ String.length (reader_symbol re r) = 1%nat
  ∧ ∃ rest, reader_lines fmt_response re r = RequestURL r :: rest
            ∧ rest ≠ [].
Proof.
  intros Hr Hs. destruct (Status r) as [|c rest] eqn:Hst; [done|].
  split; [|split].
  - rewrite (reader_body_with_response _ _ _ _ _ _ Hr Hst).
    unfold record_of. by rewrite record_text.
  - unfold reader_symbol. rewrite Hst.
    destruct (err re); [done|]. by destruct (StatusCode r =? 200).
  - unfold reader_lines. destruct (err re); [by eexists|].
    destruct (StatusCode r =? 200); by eexists.
Qed.

(** X2.  The loop body faults in exactly two cases, and then before it
    has printed, closed or written anything: with a nil-dereference when
    the outcome has no response, and with a slice out of range when the
    outcome has no error, a status code other than 200 and an empty
    status text. *)
Theorem reader_body_fault_cases re w :
  (∀ p w', reader_body fmt_response re w = Fault p w' ->
     w' = w
     ∧ ((p = NilDereference ∧ resp re = None)
        ∨ (p = SliceOutOfRange
           ∧ ∃ r, resp re = Some r ∧ err re = None
                  ∧ StatusCode r ≠ 200 ∧ Status r = "")))
  ∧ (resp re = None ->
     reader_body fmt_response re w = Fault NilDereference w)
  ∧ (∀ r, resp re = Some r -> err re = None -> StatusCode r ≠ 200 ->
          Status r = "" ->
          reader_body fmt_response re w = Fault SliceOutOfRange w).
Proof.
  unfold reader_body, mbind, M_bind, mret, M_ret, deref, slice_0_1.
  destruct re as [[r|] oe]; simpl.
  - split; [|split; [done|]].
    + intros p w'. destruct oe as [e|]; simpl; [done|].
      destruct (StatusCode r =? 200) eqn:Hc; simpl; [done|].
      destruct (Status r) eqn:Hs; simpl; [|done].
      intros [= <- <-]. split; [done|]. right. split; [done|].
      exists r. repeat split; try done. intros Heq. by rewrite Heq in Hc.
    + intros r' [= <-] -> Hc Hs.
      destruct (StatusCode r =? 200) eqn:Hc'; simpl.
      * apply Z.eqb_eq in Hc'. done.
      * by rewrite Hs.
  - split; [|split; [done|]].
    + intros p w' [= <- <-]. split; [done|]. by left.
    + intros r [=].
Qed.

(** What a completed loop body leaves behind. *)
Lemma reader_body_completes re w w' :
  reader_body fmt_response re w = Ok tt w' ->
  ∃ r text, resp re = Some r
    ∧ closed_bodies w' = closed_bodies w ++ [Body r]
    ∧ logger w' = (λ f, WriteString f text) <$> logger w
    ∧ ∃ sym, stdout w' = stdout w +:+ sym.
Proof.
  destruct re as [[r|] oe]; [|done].
  destruct (Status r) as [|c rest] eqn:Hs.
  - unfold reader_body, mbind, M_bind, mret, M_ret, deref, slice_0_1.
    simpl. destruct oe as [e|]; simpl.
    + intros [= <-]. exists r. eexists. simpl. eauto.
    + destruct (StatusCode r =? 200); simpl; [|by rewrite Hs].
      intros [= <-]. exists r. eexists. simpl. eauto.
  - rewrite (reader_body_with_response _ _ r c rest) by done.
    intros [= <-]. exists r. eexists. simpl. eauto.
Qed.

End ReaderOutcomes.

(** ** More on the runs *)

Lemma log_extends_refl lg : log_extends lg lg.
Proof.
  destruct lg as [f|]; simpl; [|done]. split; [|done].
  exists "". by rewrite append_nil_r.
Qed.

Lemma log_extends_trans a b c :
  log_extends a b -> log_extends b c -> log_extends a c.
Proof.
  destruct a as [f|], b as [g|], c as [h|]; simpl; try done.
  intros [[t Ht] Hf] [[u Hu] Hg]. split.
  - exists (t +:+ u). by rewrite Hu, Ht, append_assoc.
  - intros Hc. specialize (Hf Hc). subst g. by apply Hg.
Qed.

Lemma log_extends_write lg text :
  log_extends lg ((λ f, WriteString f text) <$> lg).
Proof.
  destruct lg as [f|]; simpl; [|done]. unfold WriteString.
  destruct (file_closed f) eqn:Hc.
  - split; [|done]. exists "". by rewrite append_nil_r.
  - split; [by exists text|done].
Qed.

Lemma log_extends_close lg : log_extends lg (Close_file <$> lg).
Proof.
  destruct lg as [[wr cl]|]; simpl; [|done]. split.
  - exists "". by rewrite append_nil_r.
  - by intros ->.
Qed.

Section Runs.

Variable fmt_response : Response -> string.
Variable parse_error : string -> option error.
Variable canonical_key : string -> string.

Local Abbreviation step := (step fmt_response parse_error canonical_key).
Local Abbreviation exec := (exec fmt_response parse_error canonical_key).
Local Abbreviation reachable :=
  (reachable fmt_response parse_error canonical_key).

Lemma step_cases c l s s' :
  step c l s = Some s' ->
  alive s = true
  ∧ match l with
    | TimerFires =>
        (if bool_decide (0 < duration c) && negb (timer_fired s)
         then Some (set_timer_fired true s) else None) = Some s'
    | WriterCloses | WriterSends _ _ => writer_select c l s = Some s'
    | WorkerSeesClosed _ | WorkerRequests _ _ | WorkerSends _
    | WorkerDone _ =>
        worker_step parse_error canonical_key c l s = Some s'
    | ReaderProcesses | ReaderSeesClosed =>
        reader_step fmt_response l s = Some s'
    | MainWaitReturns | MainClosesResult | MainClosesLogger
    | MainPrintsNewline => main_step l s = Some s'
    end.
Proof.
  intros Hstep.
  pose proof (step_alive _ _ _ _ _ _ _ Hstep) as Ha. split; [done|].
  rewrite step_unfold in Hstep by done. by destruct l.
Qed.

Lemma reader_body_fault_world re w p w' :
  reader_body fmt_response re w = Fault p w' -> w' = w.
Proof.
  unfold reader_body, mbind, M_bind, mret, M_ret, deref, slice_0_1.
  destruct re as [[r|] [e|]]; simpl; try done; try (by intros [= _ <-]).
  destruct (StatusCode r =? 200); simpl; [done|].
  destruct (Status r); simpl; [by intros [= _ <-]|done].
Qed.

(** How a step changes the world outside the channels: not at all, by a
    text printed, by a completed loop body of the reader, or by [main]
    closing the log. *)
Lemma step_world c l s s' :
  step c l s = Some s' ->
  world s' = world s
  ∨ (∃ text, world s' = {| stdout := stdout (world s) +:+ text;
                           logger := logger (world s);
                           closed_bodies := closed_bodies (world s) |})
  ∨ (∃ re, l = ReaderProcesses ∧ reader_st s = Processing re
           ∧ reader_st s' = Draining
           ∧ reader_body fmt_response re (world s) = Ok tt (world s'))
  ∨ (l = MainClosesLogger ∧ world s' = close_logger (world s)).
Proof.
  intros [_ Hstep]%step_cases. revert Hstep.
  destruct l; simpl; unfold writer_select, reader_step, main_step;
    repeat case_match; try done; intros [= <-]; simpl; auto;
    repeat match goal with
    | H : worker_body _ _ _ _ _ _ _ = _ |- _ =>
        rewrite worker_body_outcome in H;
        destruct (parse_error _); simplify_eq
    | H : reader_body _ _ _ = Fault _ _ |- _ =>
        apply reader_body_fault_world in H; subst
    | H : reader_body _ _ _ = Ok ?u _ |- _ => destruct u
    end; simpl; eauto 10.
Qed.

Lemma step_log_extends c l s s' :
  step c l s = Some s' ->
  log_extends (logger (world s)) (logger (world s')).
Proof.
  intros [->|[[text ->]|[(re & _ & _ & _ & Hb)|[_ ->]]]]%step_world; simpl.
  - apply log_extends_refl.
  - apply log_extends_refl.
  - apply reader_body_completes in Hb as (r & text & _ & _ & -> & _).
    apply log_extends_write.
  - apply log_extends_close.
Qed.

(** X3.  Along every schedule the log is only appended to: what was
    written stays as a prefix; a run without a log never gets one and a
    run with a log keeps it; and once the log file is closed its content
    never changes again (a record that arrives later is lost). *)
Theorem log_is_append_only c ls s s' :
  exec c ls s = Some s' ->
  log_extends (logger (world s)) (logger (world s')).
Proof.
  revert s. induction ls as [|l ls IH]; simpl; intros s.
  - intros [= <-]. apply log_extends_refl.
  - destruct (step c l s) as [s1|] eqn:Hstep; [|done].
    intros Hex. eapply log_extends_trans; [|by apply IH].
    by eapply step_log_extends.
Qed.

Lemma owes_done_le (ws : list WorkerState) :
  (sum_list_with owes_done ws ≤ length ws)%nat.
Proof.
  induction ws as [|w ws IH]; simpl; [lia|]. destruct w; simpl; lia.
Qed.

(** X4.  In every state of every run the pool has as many workers as
    [main] started ([par], none when [par] is not positive), the wait
    group counts exactly the workers that have not yet called [Done], so
    it stays between zero and the pool size, and [Done] never drives it
    below zero. *)
Theorem wait_group_counts_unfinished_workers c log s :
  reachable c log s ->
  length (workers s) = Z.to_nat (par c)
  ∧ wg s = Z.of_nat (sum_list_with owes_done (workers s))
  ∧ 0 <= wg s <= Z.max 0 (par c)
  ∧ (wg s = 0 ↔ Forall (λ w, w = Exited) (workers s))
  ∧ panic s ≠ Some NegativeWaitGroup.
Proof.
  intros Hs.
  destruct (reachable_invariant _ _ _ _ _ _ Hs)
    as [Hwg Hpool _ _ _ _ _ _ [_ Hpan] _ _ _].
  pose proof (owes_done_le (workers s)) as Hle.
  repeat split; try done; try lia.
  - intros Hz. apply owes_done_exited. lia.
  - intros Hall. rewrite Hwg.
    assert (sum_list_with owes_done (workers s) = 0%nat) as ->; [|done].
    clear -Hall. induction Hall as [|w ws -> _ IH]; simpl; [done|lia].
Qed.

(** Closes a goal about the sum of [f] over the workers after one of
    them has changed. *)
Ltac worker_sum f :=
  match goal with
  | H : workers ?s !! ?i = Some ?w
    |- context [sum_list_with f (<[?i := ?w']> (workers ?s))] =>
      pose proof (sum_list_with_insert f _ _ _ w' H); simpl in *; lia
  end.

(** X5.  In every state of every run, every request that was passed to
    the client is a GET for a URL of the configured list and carries
    exactly the configured header: one header, under the canonical form
    of its name, when the name is not empty, and none otherwise. *)
Theorem requests_carry_method_and_header c log s :
  reachable c log s ->
  Forall (λ r, Method r = "GET" ∧ URL r ∈ urls c
               ∧ ReqHeader r
                 = if bool_decide (hdr c ≠ "")
                   then [(canonical_key (hdr c), val c)] else [])
         (requests s).
Proof.
  induction 1 as [|s l s' Hs IH Hstep]; [constructor|].
  destruct (reachable_invariant _ _ _ _ _ _ Hs)
    as [_ _ _ _ _ _ _ _ _ Hhold _ _].
  apply step_cases in Hstep as [_ Hstep]. revert Hstep.
  destruct l; simpl; unfold writer_select, reader_step, main_step;
    repeat case_match; try done; intros [= <-]; simpl; try done.
  all: match goal with
       | H : worker_body _ _ _ _ _ _ _ = _ |- _ =>
           rewrite worker_body_outcome in H;
           destruct (parse_error _); simplify_eq
       end.
  all: apply Forall_app; split; [done|]; constructor; [|done]; simpl.
  all: split; [done|]; split; [by eapply Hhold|].
  all: match goal with H : bool_decide _ = _ |- _ => by rewrite H end.
Qed.

(** X8.  When [par] is zero or negative no worker is started: in every
    state of every run the pool is empty, no URL is handed over and no
    request is made, whatever the duration; and [main] can run straight
    through its last four statements, after which the standard output
    holds the newline alone. *)
Theorem no_workers_no_requests c log :
  par c <= 0 ->
  (∀ s, reachable c log s ->
        workers s = [] ∧ wg s = 0 ∧ pushed s = [] ∧ requests s = [])
  ∧ ∃ s, exec c main_winds_up (init c log) = Some s
         ∧ main_st s = Returned
         ∧ stdout (world s) = nl.
Proof.
  intros Hpar. split.
  - intros s Hs.
    destruct (reachable_invariant _ _ _ _ _ _ Hs)
      as [Hwg Hpool _ _ _ _ _ _ _ _ _ _].
    assert (workers s = []) as Hnil.
    { apply length_zero_iff_nil. rewrite Hpool. lia. }
    split; [done|]. split; [by rewrite Hwg, Hnil|].
    clear Hwg Hpool Hnil.
    induction Hs as [|s l s' Hs IH Hstep]; [done|].
    destruct (reachable_invariant _ _ _ _ _ _ Hs)
      as [_ Hpool _ _ _ _ _ _ _ _ _ _].
    assert (workers s = []) as Hnil.
    { apply length_zero_iff_nil. rewrite Hpool. lia. }
    apply step_cases in Hstep as [_ Hstep]. revert Hstep.
    destruct l; simpl; unfold writer_select, reader_step, main_step;
      rewrite ?Hnil; simpl;
      repeat case_match; try done; intros [= <-]; simpl; done.
  - assert (Z.to_nat (par c) = 0%nat) as Hz by lia.
    unfold init. rewrite Hz. simpl. eexists. split; [reflexivity|]. done.
Qed.

Lemma in_flight_none_exited (ws : list WorkerState) :
  Forall (λ w, w = Exited) ws -> sum_list_with in_flight ws = 0%nat.
Proof. induction 1 as [|w ws -> _ IH]; simpl; [done|lia]. Qed.

(** X9.  In every state of every run the requests made are accounted
    for: their number is the number of response bodies the reader has
    closed, plus the outcomes that workers hold for the reader, plus the
    one the reader is processing.  No outcome is dropped or handled
    twice. *)
Theorem outcomes_are_conserved c log s :
  reachable c log s ->
  length (requests s)
  = (length (closed_bodies (world s))
     + sum_list_with in_flight (workers s)
     + at_reader (reader_st s))%nat.
Proof.
  induction 1 as [|s l s' Hs IH Hstep]; simpl.
  - induction (Z.to_nat (par c)) as [|n IHn]; simpl; [done|]. lia.
  - apply step_cases in Hstep as [_ Hstep]. revert Hstep.
    destruct l; simpl; unfold writer_select, reader_step, main_step;
      repeat case_match; try done; intros [= <-]; simpl; try done;
      repeat match goal with
      | H : worker_body _ _ _ _ _ _ _ = _ |- _ =>
          rewrite worker_body_outcome in H;
          destruct (parse_error _); simplify_eq
      | H : reader_body _ _ _ = Fault _ _ |- _ =>
          apply reader_body_fault_world in H; subst
      | H : reader_body _ _ _ = Ok ?u _ |- _ =>
          destruct u;
          apply reader_body_completes in H as (? & ? & _ & -> & _ & _)
      end; simpl;
      rewrite ?length_app; simpl;
      unfold at_reader in *;
      try match goal with
          | H : reader_st _ = _ |- _ =>
              try rewrite H in IH; try rewrite H
          end;
      try lia; try worker_sum in_flight.
Qed.

(** X10.  With a non-empty URL list the process never blocks, whatever
    the duration and the pool size: in every state of every run in which
    [main] has not returned and no goroutine has panicked, some goroutine
    can take a step. *)
Theorem live_state_can_step c log s :
  urls c ≠ [] -> reachable c log s -> alive s = true ->
  ∃ l, is_Some (step c l s).
Proof.
  intros Hu Hs Ha.
  destruct (reachable_invariant _ _ _ _ _ _ Hs)
    as [Hwg _ _ _ _ Hrd Hwr _ _ _ _ _].
  destruct (urls c) as [|u0 us] eqn:Hurls; [done|].
  destruct (main_st s) eqn:Hm.
  - destruct (decide (wg s = 0)) as [Hz|Hz].
    { exists MainWaitReturns. rewrite step_unfold by done.
      unfold main_step. by rewrite Hm, Hz. }
    destruct (owes_done_pending (workers s)) as (i & w & Hi & Hne); [lia|].
    destruct w as [|u|re| |]; [| | | |done].
    + destruct (writer_st s) eqn:Hw; [done| |].
      * exists (WriterSends i 0). rewrite step_unfold by done.
        unfold writer_select. by rewrite Hw, Hi, Hurls.
      * destruct Hwr as [Hc _]. exists (WorkerSeesClosed i).
        rewrite step_unfold by done. simpl. by rewrite Hi, Hc.
    + exists (WorkerRequests i (None, None)). rewrite step_unfold by done.
      simpl. rewrite Hi, worker_body_outcome. by destruct (parse_error u).
    + destruct (result_closed s) eqn:Hc.
      { exists (WorkerSends i). rewrite step_unfold by done.
        simpl. by rewrite Hi, Hc. }
      destruct (reader_st s) eqn:Hr; [done| | |congruence].
      * exists (WorkerSends i). rewrite step_unfold by done.
        simpl. by rewrite Hi, Hc, Hr.
      * exists ReaderProcesses. rewrite step_unfold by done.
        unfold reader_step. rewrite Hr.
        by destruct (reader_body fmt_response re0 (world s)).
    + exists (WorkerDone i). rewrite step_unfold by done.
      simpl. rewrite Hi. by destruct (wg s =? 0).
  - exists MainClosesResult. rewrite step_unfold by done.
    unfold main_step. by rewrite Hm.
  - exists MainClosesLogger. rewrite step_unfold by done.
    unfold main_step. by rewrite Hm.
  - exists MainPrintsNewline. rewrite step_unfold by done.
    unfold main_step. by rewrite Hm.
  - unfold alive in Ha. rewrite Hm in Ha. by destruct (panic s).
Qed.

Lemma sending_insert_other (ws : list WorkerState) i j w re :
  (∀ v, w ≠ Sending v) ->
  <[i := w]> ws !! j = Some (Sending re) -> ws !! j = Some (Sending re).
Proof.
  intros Hw H. apply lookup_insert_cases in H as [[_ H]|H]; [|done].
  by destruct (Hw re).
Qed.

Lemma step_all_answered c log l s s' :
  reachable c log s -> all_answered s -> responsive l ->
  step c l s = Some s' -> all_answered s'.
Proof.
  intros Hs (Hp & Hws & Hrd) Hl Hstep.
  assert (reachable c log s') as Hs' by (econstructor; eauto).
  destruct (reachable_invariant _ _ _ _ _ _ Hs')
    as [_ _ _ _ _ _ _ _ [Hp1 Hp2] _ _ _].
  apply step_cases in Hstep as [_ Hstep]. revert Hstep.
  destruct l; simpl; unfold writer_select, reader_step, main_step;
    repeat case_match; try done; intros [= <-]; simpl in *; try done;
    repeat match goal with
    | H : worker_body _ _ _ _ _ _ _ = _ |- _ =>
        rewrite worker_body_outcome in H;
        destruct (parse_error _); simplify_eq
    end;
    try (split; [done|split]; simpl; try done;
         try (by intros ? ? ?%sending_insert_other; eauto); fail).
  - (* a request goes out *)
    split; [done|split]; simpl; [|done].
    intros j re Hj.
    apply lookup_insert_cases in Hj as [[_ [= ->]]|Hj]; [done|eauto].
  - (* an outcome is handed to the reader *)
    split; [done|split]; simpl.
    + by intros ? ? ?%sending_insert_other; eauto.
    + intros re' [= <-]. eauto.
  - (* the reader would fault *)
    exfalso.
    destruct (Hrd _ eq_refl) as (r & Hr & Hst).
    destruct (Status r) as [|ch rest] eqn:Hs0; [done|].
    match goal with
    | H : reader_body _ _ _ = Fault _ _ |- _ =>
        rewrite (reader_body_with_response _ _ r ch rest) in H by done
    end.
    done.
Qed.

(** X11.  A run in which the client returns a response with a status text
    for every request never panics: neither the reader's loop body, nor a
    send on a closed channel, nor the wait group. *)
Theorem responsive_transport_never_panics c log ls s :
  Forall responsive ls ->
  exec c ls (init c log) = Some s ->
  panic s = None.
Proof.
  intros Hls Hex.
  assert (∀ s0, reachable c log s0 -> all_answered s0 ->
                exec c ls s0 = Some s -> all_answered s) as Hgen.
  { clear Hex. induction Hls as [|l ls Hl _ IH]; simpl; intros s0 Hs0 Ha.
    - by intros [= <-].
    - destruct (step c l s0) as [s1|] eqn:Hstep; [|done].
      apply IH.
      + econstructor; eauto.
      + eapply step_all_answered; eauto. }
  apply (Hgen (init c log)); [constructor| |done].
  split; [done|]. split; [|done].
  intros i re [[=] _]%lookup_replicate.
Qed.

Lemma WriteString_closed f text :
  file_closed (WriteString f text) = file_closed f.
Proof. unfold WriteString. by destruct (file_closed f) eqn:H. Qed.

(** X12.  When the log that [main] hands to the run is open, then in
    every state of every run: the log file is closed exactly when [main]
    is past [logger.Close()], and then the outcome queue is closed and
    every worker has finished; and the reader has returned only if the
    outcome queue is closed. *)
Theorem shutdown_order c log s :
  (∀ f, log = Some f -> file_closed f = false) ->
  reachable c log s ->
  (∀ f, logger (world s) = Some f ->
        (file_closed f = true ↔ past_close_logger (main_st s)))
  ∧ (past_close_logger (main_st s) ->
     result_closed s = true ∧ Forall (λ w, w = Exited) (workers s))
  ∧ (reader_st s = ReaderReturned -> result_closed s = true).
Proof.
  intros Hopen Hs.
  assert ((∀ f, logger (world s) = Some f ->
             (file_closed f = true ↔ past_close_logger (main_st s)))
          ∧ (main_st s = Returned -> ∃ t, stdout (world s) = t +:+ nl))
    as [Hlog _].
  { unfold past_close_logger.
    induction Hs as [|s l s' Hs [IH1 IH2] Hstep]; simpl.
    - split; [|done]. intros f Hf. rewrite (Hopen f Hf).
      split; [done|]. by intros [|].
    - apply step_cases in Hstep as [Ha Hstep].
      assert (main_st s ≠ Returned) as Hnr.
      { intros Hm. unfold alive in Ha. rewrite Hm in Ha.
        by destruct (panic s). }
      assert (∀ f, logger (world s) = Some f -> file_closed f = true ->
                   main_st s = AtPrintNewline) as Hclosed.
      { intros f Hf Hc. by destruct (proj1 (IH1 f Hf) Hc). }
      revert Hstep.
      destruct l; simpl; unfold writer_select, reader_step, main_step;
        repeat case_match; try done; intros [= <-]; simpl in *;
        repeat match goal with
        | H : worker_body _ _ _ _ _ _ _ = _ |- _ =>
            rewrite worker_body_outcome in H;
            destruct (parse_error _); simplify_eq
        | H : reader_body _ _ _ = Fault _ _ |- _ =>
            apply reader_body_fault_world in H; subst
        | H : reader_body _ _ _ = Ok ?u _ |- _ =>
            destruct u;
            apply reader_body_completes in H as (? & ? & _ & _ & ? & _)
        end; simpl in *; try done.
      + (* the reader has written *)
        split; [|intros Hm; by destruct Hnr]. intros f' Hf'.
        match goal with H : logger _ = _ <$> _ |- _ => rewrite H in Hf' end.
        destruct (logger (world s)) as [f|]; [|done].
        injection Hf' as <-. rewrite WriteString_closed. by apply IH1.
      + (* the wait has returned *)
        split; [|done]. intros f Hf. split; [|by intros [|]].
        intros Hc. by specialize (Hclosed f Hf Hc).
      + (* the outcome queue is closed *)
        split; [|done]. intros f Hf. split; [|by intros [|]].
        intros Hc. by specialize (Hclosed f Hf Hc).
      + (* main closes the log *)
        split; [|done]. intros f' Hf'.
        destruct (logger (world s)) as [f|]; [|done].
        injection Hf' as <-. simpl. split; [by left|done].
      + (* main prints the newline *)
        split; [|by eauto]. intros f Hf. specialize (IH1 f Hf).
        split; [by right|]. intros _. apply IH1. by left. }
  destruct (reachable_invariant _ _ _ _ _ _ Hs)
    as [Hwg _ Hmain _ Hres Hrd _ _ _ _ _ _].
  split; [done|]. split.
  - intros Hpast.
    assert (main_st s ≠ AtWait ∧ main_st s ≠ AtCloseResult) as [H1 H2]
      by (destruct Hpast as [-> | ->]; done).
    split.
    + destruct (result_closed s); [done|]. by destruct (Hres eq_refl).
    + apply owes_done_exited. specialize (Hmain H1). lia.
  - intros Hr. by rewrite Hr in Hrd.
Qed.

Lemma step_after_close c l s s' :
  writer_st s = WriterReturned -> step c l s = Some s' ->
  writer_st s' = WriterReturned
  ∧ work_closed s' = work_closed s
  ∧ pushed s' = pushed s
  ∧ (length (requests s') + sum_list_with holding (workers s')
     ≤ length (requests s) + sum_list_with holding (workers s))%nat.
Proof.
  intros Hw [_ Hstep]%step_cases. revert Hstep.
  destruct l; simpl; unfold writer_select, reader_step, main_step;
    rewrite ?Hw;
    repeat case_match; try done; intros [= <-]; simpl;
    repeat match goal with
    | H : worker_body _ _ _ _ _ _ _ = _ |- _ =>
        rewrite worker_body_outcome in H;
        destruct (parse_error _); simplify_eq
    end; simpl; rewrite ?length_app; simpl;
    repeat split; try done; try lia; try worker_sum holding.
Qed.

(** X13.  Once the work queue is closed it stays closed and the writer
    stays returned: along every schedule from such a state no further URL
    is handed over, and the requests still made are at most as many as
    the workers that held a URL when the schedule began. *)
Theorem closed_work_queue_stays_quiet c log ls s s' :
  reachable c log s -> work_closed s = true ->
  exec c ls s = Some s' ->
  work_closed s' = true
  ∧ writer_st s' = WriterReturned
  ∧ pushed s' = pushed s
  ∧ (length (requests s')
     ≤ length (requests s) + sum_list_with holding (workers s))%nat.
Proof.
  intros Hs Hc Hex.
  destruct (reachable_invariant _ _ _ _ _ _ Hs)
    as [_ _ _ _ _ _ Hwr _ _ _ _ _].
  assert (writer_st s = WriterReturned) as Hw.
  { destruct (writer_st s); [done|congruence|done]. }
  clear Hs Hwr. revert s Hc Hw Hex.
  induction ls as [|l ls IH]; simpl; intros s Hc Hw.
  - intros [= <-]. repeat split; try done. lia.
  - destruct (step c l s) as [s1|] eqn:Hstep; [|done].
    destruct (step_after_close _ _ _ _ Hw Hstep) as (Hw1 & Hc1 & Hp1 & Hr1).
    intros Hex. rewrite Hc in Hc1.
    destruct (IH s1 Hc1 Hw1 Hex) as (? & ? & Hp & Hr).
    repeat split; try done; [congruence|lia].
Qed.

End Runs.

(** ** More on the set-up *)

Lemma cut_space_some (s a b : string) :
  cut_space s = Some (a, b) -> s = a +:+ " " +:+ b ∧ cut_space a = None.
Proof.
  revert a b. induction s as [|c s IH]; intros a b; [done|].
  cbn [cut_space]. destruct (Ascii.eqb c " ") eqn:Hc.
  - apply Ascii.eqb_eq in Hc as ->. by intros [= <- <-].
  - destruct (cut_space s) as [[a' b']|]; [|done].
    intros [= <- <-]. destruct (IH a' b' eq_refl) as [-> Hnone].
    split; [done|]. cbn [cut_space]. by rewrite Hc, Hnone.
Qed.

Lemma cut_space_none_app (a b : string) :
  cut_space a = None -> cut_space (a +:+ " " +:+ b) = Some (a, b).
Proof.
  induction a as [|c a IH]; [done|].
  change (String c a +:+ " " +:+ b) with (String c (a +:+ " " +:+ b)).
  cbn [cut_space]. destruct (Ascii.eqb c " "); [done|].
  destruct (cut_space a) as [[? ?]|] eqn:Ha; [done|].
  intros _. by rewrite IH.
Qed.

(** X6.  A header flag that is not empty is accepted with name [h] and
    value [v] exactly when it is [h], a space and [v], with no space in
    [h]: the name is what stands before the first space and the value all
    that follows it, further spaces included. *)
Theorem header_flag_splits_at_first_space header h v :
  header ≠ "" ->
  parse_header header = inr (h, v)
  ↔ header = h +:+ " " +:+ v ∧ cut_space h = None.
Proof.
  intros Hne. unfold parse_header, SplitN_space_2.
  rewrite bool_decide_eq_true_2 by done. split.
  - destruct (cut_space header) as [[a b]|] eqn:Hcut; [|done].
    intros [= <- <-]. by apply cut_space_some.
  - intros [-> Hh]. by rewrite (cut_space_none_app _ _ Hh).
Qed.

Section SetupMore.

Variable os_Create : string -> option error.

(** X7.  When the header flag is not rejected, the log file can be
    created (or none is asked for) and at least one line of the input is
    not empty, the set-up is not fatal: the goroutines are started with
    [par] and [duration] as given, the header as parsed, the lines of the
    input that are not empty, in their order and with their repetitions,
    as URL list, and a log that is empty and open exactly when a log path
    was given. *)
Theorem valid_configuration_starts f stdin :
  ¬ header_rejected f ->
  (∀ e, ¬ log_unwritable os_Create f e) ->
  ¬ no_urls stdin ->
  ∃ h v,
    parse_header (flag_header f) = inr (h, v)
    ∧ main_setup os_Create f stdin
      = Ready {| par := flag_par f; hdr := h; val := v;
                 duration := flag_duration f;
                 urls := filter (λ url, url ≠ "") stdin |}
              (if bool_decide (flag_log f ≠ "")
               then Some {| written := ""; file_closed := false |}
               else None)
    ∧ (∀ u, u ∈ filter (λ url : string, url ≠ "") stdin
            ↔ u ∈ stdin ∧ u ≠ "")
    ∧ (Forall (λ url, url ≠ "") stdin ->
       filter (λ url : string, url ≠ "") stdin = stdin).
Proof.
  intros Hh Hl Hu. unfold main_setup.
  destruct (parse_header_cases (flag_header f))
    as [(H1 & H2 & _)|[_ (h & v & Hp)]]; [by destruct Hh|].
  exists h, v. rewrite Hp. split; [done|].
  assert (open_log os_Create (flag_log f)
          = inr (if bool_decide (flag_log f ≠ "")
                 then Some {| written := ""; file_closed := false |}
                 else None)) as ->.
  { unfold open_log. case_bool_decide as Hne; [|done].
    destruct (os_Create (flag_log f)) as [e|] eqn:He; [|done].
    by destruct (Hl e). }
  split; [|split].
  - unfold read_urls. case_bool_decide as Hlen; [|done].
    destruct Hu. unfold no_urls, read_urls.
    by apply length_zero_iff_nil.
  - intros u. rewrite list_elem_of_filter. tauto.
  - clear. induction stdin as [|x l IH]; [done|].
    intros [Hx Hall]%Forall_cons.
    rewrite filter_cons_True by done. f_equal. by apply IH.
Qed.

End SetupMore.

(** ** The further theorems on concrete runs *)

Abbreviation exec_sample :=
  (exec sample_fmt_response sample_parse_error sample_canonical_key).
Abbreviation step_sample :=
  (step sample_fmt_response sample_parse_error sample_canonical_key).

Lemma outcome_with_response_is_reported_witness :
  resp {| resp := Some sample_missing; err := None |} = Some sample_missing
  ∧ Status sample_missing ≠ ""
  ∧ reader_body sample_fmt_response
      {| resp := Some sample_missing; err := None |} sample_world
    = Ok tt {| stdout := "4";
               logger := Some {| written := "http://a/missing" +:+ nl
                                            +:+ "&{404 Not Found}" +:+ nl
                                            +:+ nl;
                                 file_closed := false |};
               closed_bodies := [2%nat] |}.
Proof.
  assert (Status sample_missing ≠ "") as Hs by discriminate.
  split; [reflexivity|]. split; [exact Hs|].
  destruct (outcome_with_response_is_reported sample_fmt_response
              {| resp := Some sample_missing; err := None |}
              sample_missing sample_world eq_refl Hs) as [Hbody _].
  eapply eq_trans; [exact Hbody|]. vm_compute. reflexivity.
Defined.

Lemma log_is_append_only_witness :
  exec_sample (serving 5) [ReaderProcesses; MainPrintsNewline]
    (sample_run (serving 5) (Some empty_log) log_closed_before_last_record)
  = Some (sample_run (serving 5) (Some empty_log)
            (log_closed_before_last_record
             ++ [ReaderProcesses; MainPrintsNewline]))
  ∧ stdout (world (sample_run (serving 5) (Some empty_log)
                     (log_closed_before_last_record
                      ++ [ReaderProcesses; MainPrintsNewline])))
    = "." +:+ nl
  ∧ logger (world (sample_run (serving 5) (Some empty_log)
                     log_closed_before_last_record))
    = Some {| written := ""; file_closed := true |}
  ∧ log_extends
      (logger (world (sample_run (serving 5) (Some empty_log)
                        log_closed_before_last_record)))
      (logger (world (sample_run (serving 5) (Some empty_log)
                        (log_closed_before_last_record
                         ++ [ReaderProcesses; MainPrintsNewline])))).
Proof.
  assert (exec_sample (serving 5) [ReaderProcesses; MainPrintsNewline]
            (sample_run (serving 5) (Some empty_log)
               log_closed_before_last_record)
          = Some (sample_run (serving 5) (Some empty_log)
                    (log_closed_before_last_record
                     ++ [ReaderProcesses; MainPrintsNewline]))) as Hex
    by (vm_compute; reflexivity).
  split; [exact Hex|]. split; [vm_compute; reflexivity|].
  split; [vm_compute; reflexivity|].
  exact (log_is_append_only sample_fmt_response sample_parse_error
           sample_canonical_key _ _ _ _ Hex).
Defined.

Lemma wait_group_counts_unfinished_workers_witness :
  sample_reachable (rejecting 2 0) None
    (sample_run (rejecting 2 0) None
       [WriterSends 0 0; WorkerRequests 0 (None, None); WorkerDone 0])
  ∧ wg (sample_run (rejecting 2 0) None
          [WriterSends 0 0; WorkerRequests 0 (None, None); WorkerDone 0])
    = 1
  ∧ length (workers (sample_run (rejecting 2 0) None
              [WriterSends 0 0; WorkerRequests 0 (None, None);
               WorkerDone 0])) = 2%nat.
Proof.
  assert (sample_reachable (rejecting 2 0) None
            (sample_run (rejecting 2 0) None
               [WriterSends 0 0; WorkerRequests 0 (None, None);
                WorkerDone 0])) as Hs
    by (apply (sample_run_reachable _ _
                 [WriterSends 0 0; WorkerRequests 0 (None, None);
                  WorkerDone 0]); vm_compute; reflexivity).
  split; [exact Hs|].
  destruct (wait_group_counts_unfinished_workers _ _ _ _ _ _ Hs)
    as (Hlen & Hwg & _).
  split.
  - eapply eq_trans; [exact Hwg|]. vm_compute. reflexivity.
  - eapply eq_trans; [exact Hlen|]. vm_compute. reflexivity.
Defined.

Lemma requests_carry_method_and_header_witness :
  sample_reachable tagged None
    (sample_run tagged None
       [WriterSends 0 1; WorkerRequests 0 (Some sample_missing, None)])
  ∧ requests (sample_run tagged None
       [WriterSends 0 1; WorkerRequests 0 (Some sample_missing, None)])
    = [{| Method := "GET"; URL := "http://a/missing";
          ReqHeader := [("X-Test", "custom")] |}]
  ∧ Forall (λ r, Method r = "GET" ∧ URL r ∈ urls tagged
                 ∧ ReqHeader r
                   = if bool_decide (hdr tagged ≠ "")
                     then [(sample_canonical_key (hdr tagged), val tagged)]
                     else [])
      (requests (sample_run tagged None
         [WriterSends 0 1; WorkerRequests 0 (Some sample_missing, None)])).
Proof.
  assert (sample_reachable tagged None
            (sample_run tagged None
               [WriterSends 0 1;
                WorkerRequests 0 (Some sample_missing, None)])) as Hs
    by (apply (sample_run_reachable _ _
                 [WriterSends 0 1;
                  WorkerRequests 0 (Some sample_missing, None)]);
        vm_compute; reflexivity).
  split; [exact Hs|]. split; [vm_compute; reflexivity|].
  exact (requests_carry_method_and_header _ _ _ _ _ _ Hs).
Defined.

Lemma no_workers_no_requests_witness :
  par (idle 0) <= 0
  ∧ ∃ s, exec_sample (idle 0) main_winds_up (init (idle 0) None) = Some s
         ∧ main_st s = Returned
         ∧ stdout (world s) = nl.
Proof.
  assert (par (idle 0) <= 0) as Hpar by (simpl; lia).
  split; [exact Hpar|].
  exact (proj2 (no_workers_no_requests sample_fmt_response
                  sample_parse_error sample_canonical_key (idle 0) None
                  Hpar)).
Defined.

Lemma outcomes_are_conserved_witness :
  sample_reachable (serving 0) None
    (sample_run (serving 0) None
       [WriterSends 0 0; WorkerRequests 0 (Some sample_ok, None);
        WorkerSends 0; WriterSends 0 1;
        WorkerRequests 0 (Some sample_missing, None); ReaderProcesses])
  ∧ length (requests (sample_run (serving 0) None
       [WriterSends 0 0; WorkerRequests 0 (Some sample_ok, None);
        WorkerSends 0; WriterSends 0 1;
        WorkerRequests 0 (Some sample_missing, None); ReaderProcesses]))
    = (1 + 1 + 0)%nat.
Proof.
  assert (sample_reachable (serving 0) None
            (sample_run (serving 0) None
               [WriterSends 0 0; WorkerRequests 0 (Some sample_ok, None);
                WorkerSends 0; WriterSends 0 1;
                WorkerRequests 0 (Some sample_missing, None);
                ReaderProcesses])) as Hs
    by (apply (sample_run_reachable _ _
                 [WriterSends 0 0; WorkerRequests 0 (Some sample_ok, None);
                  WorkerSends 0; WriterSends 0 1;
                  WorkerRequests 0 (Some sample_missing, None);
                  ReaderProcesses]); vm_compute; reflexivity).
  split; [exact Hs|].
  eapply eq_trans; [exact (outcomes_are_conserved _ _ _ _ _ _ Hs)|].
  vm_compute. reflexivity.
Defined.

Lemma live_state_can_step_witness :
  urls (serving 0) ≠ []
  ∧ sample_reachable (serving 0) None
      (sample_run (serving 0) None [WriterSends 0 0])
  ∧ alive (sample_run (serving 0) None [WriterSends 0 0]) = true
  ∧ ∃ l, is_Some (step_sample (serving 0) l
                    (sample_run (serving 0) None [WriterSends 0 0])).
Proof.
  assert (urls (serving 0) ≠ []) as Hu by discriminate.
  assert (sample_reachable (serving 0) None
            (sample_run (serving 0) None [WriterSends 0 0])) as Hs
    by (apply (sample_run_reachable _ _ [WriterSends 0 0]);
        vm_compute; reflexivity).
  assert (alive (sample_run (serving 0) None [WriterSends 0 0]) = true)
    as Ha by (vm_compute; reflexivity).
  split; [exact Hu|]. split; [exact Hs|]. split; [exact Ha|].
  exact (live_state_can_step _ _ _ _ _ _ Hu Hs Ha).
Defined.

Lemma responsive_transport_never_panics_witness :
  Forall responsive one_round_then_timeout
  ∧ exec_sample (serving 5) one_round_then_timeout
      (init (serving 5) (Some empty_log))
    = Some (sample_run (serving 5) (Some empty_log) one_round_then_timeout)
  ∧ panic (sample_run (serving 5) (Some empty_log) one_round_then_timeout)
    = None.
Proof.
  assert (Forall responsive one_round_then_timeout) as Hall.
  { unfold one_round_then_timeout.
    repeat (constructor; [first [exact I | exists sample_ok; split;
                                  [reflexivity|discriminate]]|]).
    constructor. }
  assert (exec_sample (serving 5) one_round_then_timeout
            (init (serving 5) (Some empty_log))
          = Some (sample_run (serving 5) (Some empty_log)
                    one_round_then_timeout)) as Hex
    by (vm_compute; reflexivity).
  split; [exact Hall|]. split; [exact Hex|].
  exact (responsive_transport_never_panics sample_fmt_response
           sample_parse_error sample_canonical_key _ _ _ _ Hall Hex).
Defined.

Lemma shutdown_order_witness :
  (∀ f, Some empty_log = Some f -> file_closed f = false)
  ∧ sample_reachable (serving 5) (Some empty_log)
      (sample_run (serving 5) (Some empty_log) log_closed_before_last_record)
  ∧ logger (world (sample_run (serving 5) (Some empty_log)
                     log_closed_before_last_record))
    = Some {| written := ""; file_closed := true |}
  ∧ result_closed (sample_run (serving 5) (Some empty_log)
                     log_closed_before_last_record) = true.
Proof.
  assert (∀ f, Some empty_log = Some f -> file_closed f = false) as Hopen
    by (intros f [= <-]; reflexivity).
  assert (sample_reachable (serving 5) (Some empty_log)
            (sample_run (serving 5) (Some empty_log)
               log_closed_before_last_record)) as Hs
    by (apply (sample_run_reachable _ _ log_closed_before_last_record);
        vm_compute; reflexivity).
  assert (logger (world (sample_run (serving 5) (Some empty_log)
                           log_closed_before_last_record))
          = Some {| written := ""; file_closed := true |}) as Hlog
    by (vm_compute; reflexivity).
  split; [exact Hopen|]. split; [exact Hs|]. split; [exact Hlog|].
  destruct (shutdown_order _ _ _ _ _ _ Hopen Hs) as (Hclosed & Hpast & _).
  exact (proj1 (Hpast (proj1 (Hclosed _ Hlog) eq_refl))).
Defined.

Lemma closed_work_queue_stays_quiet_witness :
  sample_reachable (serving 5) None
    (sample_run (serving 5) None [WriterSends 0 1; TimerFires; WriterCloses])
  ∧ work_closed (sample_run (serving 5) None
                   [WriterSends 0 1; TimerFires; WriterCloses]) = true
  ∧ exec_sample (serving 5)
      [WorkerRequests 0 (Some sample_missing, None); WorkerSends 0]
      (sample_run (serving 5) None [WriterSends 0 1; TimerFires; WriterCloses])
    = Some (sample_run (serving 5) None
              [WriterSends 0 1; TimerFires; WriterCloses;
               WorkerRequests 0 (Some sample_missing, None); WorkerSends 0])
  ∧ pushed (sample_run (serving 5) None
              [WriterSends 0 1; TimerFires; WriterCloses;
               WorkerRequests 0 (Some sample_missing, None); WorkerSends 0])
    = pushed (sample_run (serving 5) None
                [WriterSends 0 1; TimerFires; WriterCloses]).
Proof.
  assert (sample_reachable (serving 5) None
            (sample_run (serving 5) None
               [WriterSends 0 1; TimerFires; WriterCloses])) as Hs
    by (apply (sample_run_reachable _ _
                 [WriterSends 0 1; TimerFires; WriterCloses]);
        vm_compute; reflexivity).
  assert (work_closed (sample_run (serving 5) None
                         [WriterSends 0 1; TimerFires; WriterCloses]) = true)
    as Hc by (vm_compute; reflexivity).
  assert (exec_sample (serving 5)
            [WorkerRequests 0 (Some sample_missing, None); WorkerSends 0]
            (sample_run (serving 5) None
               [WriterSends 0 1; TimerFires; WriterCloses])
          = Some (sample_run (serving 5) None
                    [WriterSends 0 1; TimerFires; WriterCloses;
                     WorkerRequests 0 (Some sample_missing, None);
                     WorkerSends 0])) as Hex
    by (vm_compute; reflexivity).
  split; [exact Hs|]. split; [exact Hc|]. split; [exact Hex|].
  destruct (closed_work_queue_stays_quiet _ _ _ _ _ _ _ _ Hs Hc Hex)
    as (_ & _ & Hp & _).
  exact Hp.
Defined.

Lemma header_flag_splits_at_first_space_witness :
  "X-Test custom value" ≠ ""
  ∧ parse_header "X-Test custom value" = inr ("X-Test", "custom value").
Proof.
  assert ("X-Test custom value" ≠ "") as Hne by discriminate.
  split; [exact Hne|].
  apply (proj2 (header_flag_splits_at_first_space
                  "X-Test custom value" "X-Test" "custom value" Hne)).
  split; vm_compute; reflexivity.
Defined.

Lemma valid_configuration_starts_witness :
  ¬ header_rejected (sample_flags "X-Test custom" "out.log")
  ∧ (∀ e, ¬ log_unwritable sample_os_Create
              (sample_flags "X-Test custom" "out.log") e)
  ∧ ¬ no_urls ["http://a/ok"; ""; "http://a/missing"]
  ∧ main_setup sample_os_Create (sample_flags "X-Test custom" "out.log")
      ["http://a/ok"; ""; "http://a/missing"]
    = Ready {| par := 1; hdr := "X-Test"; val := "custom"; duration := 0;
               urls := ["http://a/ok"; "http://a/missing"] |}
            (Some empty_log).
Proof.
  assert (¬ header_rejected (sample_flags "X-Test custom" "out.log")) as Hh.
  { intros [_ H]. apply H. vm_compute. reflexivity. }
  assert (∀ e, ¬ log_unwritable sample_os_Create
                   (sample_flags "X-Test custom" "out.log") e) as Hl.
  { intros e [_ H]. vm_compute in H. discriminate H. }
  assert (¬ no_urls ["http://a/ok"; ""; "http://a/missing"]) as Hu.
  { unfold no_urls. vm_compute. discriminate. }
  split; [exact Hh|]. split; [exact Hl|]. split; [exact Hu|].
  destruct (valid_configuration_starts sample_os_Create _ _ Hh Hl Hu)
    as (h & v & Hparse & Hsetup & _).
  vm_compute in Hparse. injection Hparse as <- <-.
  eapply eq_trans; [exact Hsetup|]. vm_compute. reflexivity.
Defined.

(** ** Termination of the runs with a time limit *)

Section Termination.

Variable fmt_response : Response -> string.
Variable parse_error : string -> option error.
Variable canonical_key : string -> string.

Local Abbreviation step := (step fmt_response parse_error canonical_key).
Local Abbreviation exec := (exec fmt_response parse_error canonical_key).
Local Abbreviation reachable :=
  (reachable fmt_response parse_error canonical_key).
Local Abbreviation maximal_run :=
  (maximal_run fmt_response parse_error canonical_key).
Local Abbreviation weakly_fair :=
  (weakly_fair fmt_response parse_error canonical_key).
Local Abbreviation run_of :=
  (run_of fmt_response parse_error canonical_key).

Lemma run_reachable c log σ n :
  maximal_run c log σ -> reachable c log (σ n).
Proof.
  intros [H0 Hnext]. induction n as [|n IH].
  - rewrite H0. constructor.
  - destruct (Hnext n) as [[l Hl]|[_ ->]]; [|done]. econstructor; eauto.
Qed.

Lemma dead_cannot_step c l s : alive s = false -> step c l s = None.
Proof.
  intros Ha. destruct (step c l s) as [s'|] eqn:Hstep; [|done].
  apply step_alive in Hstep. congruence.
Qed.

Lemma dead_stays c log σ n k :
  maximal_run c log σ -> alive (σ n) = false -> (n ≤ k)%nat -> σ k = σ n.
Proof.
  intros [_ Hnext] Ha. induction 1 as [|k Hle IH]; [done|].
  destruct (Hnext k) as [[l Hl]|[_ ->]]; [|done].
  rewrite IH in Hl. rewrite (dead_cannot_step _ _ _ Ha) in Hl. done.
Qed.

(** A live state of a run with a time limit is left by a step. *)
Lemma live_run_steps c log σ n :
  0 < duration c -> maximal_run c log σ -> alive (σ n) = true ->
  ∃ l, step c l (σ n) = Some (σ (S n)).
Proof.
  intros Hd Hrun Ha.
  destruct (no_deadlock _ _ _ c log (σ n) Hd (run_reachable _ _ _ n Hrun) Ha)
    as [l [s' Hl]].
  destruct Hrun as [_ Hnext].
  destruct (Hnext n) as [?|[Hnone _]]; [done|]. rewrite Hnone in Hl. done.
Qed.

Lemma step_timer_fired c l s s' :
  step c l s = Some s' -> timer_fired s = true -> timer_fired s' = true.
Proof.
  intros [_ Hstep]%step_cases Hf. revert Hstep.
  destruct l; simpl; unfold writer_select, reader_step, main_step;
    repeat case_match; try done; intros [= <-]; simpl; done.
Qed.

Lemma run_timer_fired c log σ n k :
  maximal_run c log σ -> timer_fired (σ n) = true -> (n ≤ k)%nat ->
  timer_fired (σ k) = true.
Proof.
  intros [_ Hnext] Hf. induction 1 as [|k Hle IH]; [done|].
  destruct (Hnext k) as [[l Hl]|[_ ->]]; [|done].
  by eapply step_timer_fired.
Qed.

(** In a run that is fair to the timer and to the writer's taking of it,
    the writer leaves its loop, unless the process ends before. *)
Lemma fair_writer_leaves c log σ :
  0 < duration c -> maximal_run c log σ ->
  weakly_fair c TimerFires σ -> weakly_fair c WriterCloses σ ->
  ∃ n, alive (σ n) = false ∨ writer_st (σ n) = WriterReturned.
Proof.
  intros Hd Hrun Htimer Hwriter.
  destruct (Htimer 0%nat) as (k & _ & Hk).
  destruct (alive (σ k)) eqn:Ha; [|by exists k; left].
  rewrite step_unfold in Hk by done.
  rewrite bool_decide_eq_true_2 in Hk by done. simpl in Hk.
  destruct (timer_fired (σ k)) eqn:Hf; [|done].
  destruct (Hwriter k) as (k' & Hle & Hk').
  exists k'. destruct (alive (σ k')) eqn:Ha'; [|by left]. right.
  rewrite step_unfold in Hk' by done. unfold writer_select in Hk'.
  rewrite (run_timer_fired _ _ _ _ _ Hrun Hf Hle) in Hk'.
  pose proof (run_reachable _ _ _ k' Hrun) as Hs.
  destruct (reachable_invariant _ _ _ _ _ _ Hs)
    as [_ _ _ _ _ _ Hwr _ _ _ _ _].
  by destruct (writer_st (σ k')).
Qed.

(** Once the writer has returned, the run is over within the fuel of the
    state. *)
Lemma returned_writer_drains c log σ :
  0 < duration c -> maximal_run c log σ ->
  ∀ f n, (fuel (σ n) ≤ f)%nat -> writer_st (σ n) = WriterReturned ->
         ∃ k, (k ≤ f)%nat ∧ alive (σ (n + k)%nat) = false.
Proof.
  intros Hd Hrun. induction f as [|f IH]; intros n Hfuel Hw.
  - exists 0%nat. split; [done|]. rewrite Nat.add_0_r.
    destruct (alive (σ n)) eqn:Ha; [|done].
    destruct (fuel_alive _ Ha) as [Hsum Hm]. unfold fuel_sum in Hsum. lia.
  - destruct (alive (σ n)) eqn:Ha.
    + destruct (live_run_steps _ _ _ n Hd Hrun Ha) as [l Hl].
      pose proof (step_fuel _ _ _ _ _ _ _ Hl) as Hless.
      destruct (step_writer_returned _ _ _ _ _ _ _ Hw Hl) as [Hw' Hsend].
      rewrite Hsend in Hless.
      destruct (IH (S n)) as (k & Hk & Hdead); [lia|done|].
      exists (S k). split; [lia|].
      by replace (n + S k)%nat with (S n + k)%nat by lia.
    + exists 0%nat. split; [lia|]. by rewrite Nat.add_0_r.
Qed.

Lemma first_dead (σ : nat -> State) m :
  alive (σ m) = false ->
  ∃ m0, (m0 ≤ m)%nat ∧ alive (σ m0) = false
        ∧ ∀ k, (k < m0)%nat -> alive (σ k) = true.
Proof.
  intros Ha.
  assert (∀ j, (∃ m0, (m0 ≤ j)%nat ∧ alive (σ m0) = false
                      ∧ ∀ k, (k < m0)%nat -> alive (σ k) = true)
               ∨ ∀ k, (k ≤ j)%nat -> alive (σ k) = true) as Hsearch.
  { induction j as [|j IHj].
    - destruct (alive (σ 0%nat)) eqn:H0.
      + right. intros k Hk. by replace k with 0%nat by lia.
      + left. exists 0%nat. split; [done|]. split; [done|].
        intros k Hk. lia.
    - destruct IHj as [(m0 & Hle & Hdead & Hleast)|Hall].
      + left. exists m0. split; [lia|]. by split.
      + destruct (alive (σ (S j))) eqn:Hj.
        * right. intros k Hk.
          destruct (decide (k = S j)) as [->|]; [done|]. apply Hall. lia.
        * left. exists (S j). split; [done|]. split; [done|].
          intros k Hk. apply Hall. lia. }
  destruct (Hsearch m) as [?|Hall]; [done|].
  rewrite Hall in Ha by done. done.
Qed.

(** While the work queue is open, a worker can only have left its loop
    through the [break] after a URL that [http.NewRequest] rejects. *)
Lemma open_queue_leaver_was_rejected c log s :
  reachable c log s -> work_closed s = false ->
  ∀ i w, workers s !! i = Some w -> w = Leaving ∨ w = Exited ->
         ∃ u, u ∈ urls c ∧ is_Some (parse_error u).
Proof.
  induction 1 as [|s l s' Hs IH Hstep]; intros Hopen j w Hj Hw.
  - apply lookup_replicate in Hj as [-> _]. by destruct Hw.
  - destruct (reachable_invariant _ _ _ _ _ _ Hs)
      as [_ _ _ _ _ _ _ _ _ Hhold _ _].
    apply step_cases in Hstep as [_ Hstep]. revert Hstep.
    destruct l; simpl;
      unfold writer_select, reader_step, main_step;
      repeat case_match; try done; intros [= <-]; simpl in *;
      try done; eauto;
      try (apply lookup_insert_cases in Hj as [[-> ->]|Hj]; eauto;
           try (by destruct Hw); try congruence).
    match goal with
    | H : worker_body _ _ _ _ _ _ _ = _ |- _ =>
        rewrite worker_body_outcome in H
    end.
    match goal with
    | H : workers s !! ?i = Some (Holding ?u) |- _ =>
        exists u; split; [by eapply Hhold|];
        destruct (parse_error u); [done|congruence]
    end.
Qed.

(** C5 (as amended).  With a positive duration, a non-empty URL list and
    at least one worker, every whole run that is weakly fair to the
    timer's firing and to the writer's taking of the fired timer comes to
    an end: from some state on the process is over and nothing changes.
    Unless a goroutine has panicked, the run has ended in one of two
    ways.  Either the timer has fired and the work queue is closed, every
    worker has finished and [main] has returned, and the end comes at
    most [5 * par + 6] steps after any state in which the work queue is
    closed; or the work queue is still open, every worker has finished
    because it left its loop on a URL that [http.NewRequest] rejects, and
    [main] has returned. *)
Theorem timed_run_terminates c log σ :
  urls c ≠ [] -> 1 <= par c -> 0 < duration c ->
  maximal_run c log σ ->
  weakly_fair c TimerFires σ -> weakly_fair c WriterCloses σ ->
  ∃ m, alive (σ m) = false
    ∧ (∀ k, (m ≤ k)%nat -> σ k = σ m)
    ∧ (∀ n, work_closed (σ n) = true ->
            (m ≤ n + (5 * Z.to_nat (par c) + 6))%nat)
    ∧ (panic (σ m) = None ->
       main_st (σ m) = Returned
       ∧ Forall (λ w, w = Exited) (workers (σ m))
       ∧ result_closed (σ m) = true
       ∧ ((timer_fired (σ m) = true ∧ work_closed (σ m) = true
           ∧ writer_st (σ m) = WriterReturned)
          ∨ (work_closed (σ m) = false
             ∧ ∃ u, u ∈ urls c ∧ is_Some (parse_error u)))).
Proof.
  intros _ Hpar Hd Hrun Htimer Hwriter.
  assert (∃ m, alive (σ m) = false) as [m1 Hm1].
  { destruct (fair_writer_leaves _ _ _ Hd Hrun Htimer Hwriter)
      as [n [Hdead|Hw]]; [by exists n|].
    destruct (returned_writer_drains _ _ _ Hd Hrun _ n (le_n _) Hw)
      as (k & _ & Hk). by exists (n + k)%nat. }
  destruct (first_dead σ m1 Hm1) as (m & _ & Hm & Hfirst).
  exists m. split; [done|]. split; [by intros k; eapply dead_stays|].
  pose proof (run_reachable _ _ _ m Hrun) as Hs.
  destruct (reachable_invariant _ _ _ _ _ _ Hs)
    as [Hwg Hpool Hmain _ Hopen _ Hwr _ _ _ _ _].
  split.
  - (* the bound after the close *)
    intros n Hc.
    destruct (decide (m ≤ n)%nat) as [|Hlt]; [lia|].
    pose proof (run_reachable _ _ _ n Hrun) as Hsn.
    destruct (reachable_invariant _ _ _ _ _ _ Hsn)
      as [_ Hpooln _ _ _ _ Hwrn _ _ _ _ _].
    assert (writer_st (σ n) = WriterReturned ∧ timer_fired (σ n) = true)
      as [Hw Hf].
    { destruct (writer_st (σ n)); [done|congruence|]. by destruct Hwrn. }
    destruct (returned_writer_drains _ _ _ Hd Hrun _ n (le_n _) Hw)
      as (k & Hk & Hdead).
    assert (m ≤ n + k)%nat.
    { destruct (decide (m ≤ n + k)%nat) as [|Hgt]; [done|].
      rewrite Hfirst in Hdead by lia. done. }
    pose proof (fuel_le_sum (σ n)) as Hle.
    unfold fuel_sum, writer_fuel in Hle. rewrite Hw, Hf in Hle.
    pose proof (worker_fuel_bound (workers (σ n))) as Hb.
    rewrite Hpooln in Hb.
    assert (reader_fuel (reader_st (σ n)) ≤ 2)%nat
      by (destruct (reader_st (σ n)); simpl; lia).
    assert (main_fuel (main_st (σ n)) ≤ 4)%nat
      by (destruct (main_st (σ n)); simpl; lia).
    lia.
  - (* how the run has ended *)
    intros Hp.
    assert (main_st (σ m) = Returned) as Hret.
    { unfold alive in Hm. rewrite Hp in Hm. by destruct (main_st (σ m)). }
    assert (Forall (λ w, w = Exited) (workers (σ m))) as Hall.
    { apply owes_done_exited.
      assert (wg (σ m) = 0) by (apply Hmain; congruence). lia. }
    split; [done|]. split; [done|]. split.
    { destruct (result_closed (σ m)); [done|].
      destruct (Hopen eq_refl); congruence. }
    destruct (work_closed (σ m)) eqn:Hc.
    + left. destruct (writer_st (σ m)); [done|congruence|].
      by destruct Hwr.
    + right. split; [done|].
      destruct (workers (σ m)) as [|w ws] eqn:Hws.
      { simpl in Hpool. lia. }
      apply Forall_cons in Hall as [-> _].
      eapply (open_queue_leaver_was_rejected _ _ _ Hs Hc 0%nat Exited).
      * by rewrite Hws.
      * by right.
Qed.

(** The run that follows a schedule to a state in which the process is
    over is a whole run, fair to every step. *)
Lemma exec_app c l1 l2 s :
  exec c (l1 ++ l2) s = exec c l1 s ≫= exec c l2.
Proof.
  revert s. induction l1 as [|l l1 IH]; intros s; simpl; [done|].
  destruct (step c l s); simpl; [apply IH|done].
Qed.

Lemma run_of_beyond c log ls s n :
  exec c ls (init c log) = Some s -> (length ls ≤ n)%nat ->
  run_of c log ls n = s.
Proof.
  intros Hex Hn. unfold run_of. rewrite take_ge by done. by rewrite Hex.
Qed.

Lemma run_of_maximal c log ls s :
  exec c ls (init c log) = Some s -> alive s = false ->
  maximal_run c log (run_of c log ls).
Proof.
  intros Hex Ha. split; [done|]. intros n.
  destruct (ls !! n) as [l|] eqn:Hl.
  - left. exists l. unfold run_of.
    rewrite (take_S_r _ _ _ Hl), exec_app.
    rewrite <- (take_drop_middle _ _ _ Hl), exec_app in Hex.
    destruct (exec c (take n ls) (init c log)) as [a|]; [|done].
    simpl in *. destruct (step c l a) as [b|]; [|done]. done.
  - right. apply lookup_ge_None in Hl.
    rewrite !(run_of_beyond _ _ _ s) by (done || lia).
    split; [|done]. intros l. by apply dead_cannot_step.
Qed.

Lemma run_of_fair c log ls s l :
  exec c ls (init c log) = Some s -> alive s = false ->
  weakly_fair c l (run_of c log ls).
Proof.
  intros Hex Ha n. exists (n + length ls)%nat. split; [lia|].
  rewrite (run_of_beyond _ _ _ s) by (done || lia).
  by apply dead_cannot_step.
Qed.

End Termination.

Abbreviation run_of_sample :=
  (run_of sample_fmt_response sample_parse_error sample_canonical_key).

Lemma timed_run_terminates_witness :
  urls (serving 5) ≠ [] ∧ 1 <= par (serving 5) ∧ 0 < duration (serving 5)
  ∧ maximal_run sample_fmt_response sample_parse_error sample_canonical_key
      (serving 5) None (run_of_sample (serving 5) None one_round_then_timeout)
  ∧ weakly_fair sample_fmt_response sample_parse_error sample_canonical_key
      (serving 5) TimerFires
      (run_of_sample (serving 5) None one_round_then_timeout)
  ∧ weakly_fair sample_fmt_response sample_parse_error sample_canonical_key
      (serving 5) WriterCloses
      (run_of_sample (serving 5) None one_round_then_timeout)
  ∧ ∃ m, alive (run_of_sample (serving 5) None one_round_then_timeout m)
         = false
         ∧ ∀ k, (m ≤ k)%nat ->
                run_of_sample (serving 5) None one_round_then_timeout k
                = run_of_sample (serving 5) None one_round_then_timeout m.
Proof.
  assert (urls (serving 5) ≠ []) as Hu by discriminate.
  assert (1 <= par (serving 5)) as Hn by (simpl; lia).
  assert (0 < duration (serving 5)) as Hd by (simpl; lia).
  assert (exec_sample (serving 5) one_round_then_timeout
            (init (serving 5) None)
          = Some (sample_run (serving 5) None one_round_then_timeout))
    as Hex by (vm_compute; reflexivity).
  assert (alive (sample_run (serving 5) None one_round_then_timeout) = false)
    as Ha by (vm_compute; reflexivity).
  pose proof (run_of_maximal _ _ _ _ _ _ _ Hex Ha) as Hrun.
  pose proof (run_of_fair _ _ _ _ _ _ _ TimerFires Hex Ha) as Htimer.
  pose proof (run_of_fair _ _ _ _ _ _ _ WriterCloses Hex Ha) as Hwriter.
  split; [exact Hu|]. split; [exact Hn|]. split; [exact Hd|].
  split; [exact Hrun|]. split; [exact Htimer|]. split; [exact Hwriter|].
  destruct (timed_run_terminates _ _ _ _ _ _ Hu Hn Hd Hrun Htimer Hwriter)
    as (m & Hm & Hstay & _).
  exists m. split; [exact Hm|exact Hstay].
Defined.
